(** * Link-mapping builder of the geography knowledge base

    A shallow embedding of [scripts/build_link_mapping.py]: the front-matter
    reader, the markdown link extractor, the directory scan that assembles
    the four link maps, and the structured report with its statistics.

    Text is modelled as [string], holding the UTF-8 encoding of the decoded
    Python [str] (the script reads every note with [encoding="utf-8"], and a
    note that does not decode raises and is skipped like any read failure).
    All separators the script looks for are ASCII, so searching bytes and
    searching code points agree; the one place where code points matter,
    [str.strip()] without arguments, is written out over the encoded
    white-space characters. *)

From Stdlib Require Import Ascii String DecimalString.
From stdpp Require Import gmap strings list fin_maps sorting.

Set Warnings "-clear-no-such-hyp".

Local Open Scope string_scope.
Local Open Scope list_scope.
Local Open Scope nat_scope.
Local Open Scope stdpp_scope.

(** ** Python [str] methods used by the script *)

Module PyStr.

Definition LF : ascii := "010"%char.
Definition DQUOTE : ascii := "034"%char.
Definition SQUOTE : ascii := "039"%char.

Definition chr (c : ascii) : string := String c "".

(** [s.startswith(p)] *)
Fixpoint startswith (p s : string) : bool :=
  match p, s with
  | "", _ => true
  | String a p', String b s' => if decide (a = b) then startswith p' s' else false
  | String _ _, "" => false
  end.

(** [s[n:]] *)
Fixpoint drop (n : nat) (s : string) : string :=
  match n, s with
  | O, _ => s
  | S n', String _ s' => drop n' s'
  | S _, "" => ""
  end.

(** [s[:n]] *)
Fixpoint take (n : nat) (s : string) : string :=
  match n, s with
  | S n', String c s' => String c (take n' s')
  | _, _ => ""
  end.

(** The text before and after the leftmost occurrence of [sep] in [s]
    ([s.partition(sep)] when [sep] occurs), [None] when it does not. *)
Fixpoint cut (sep s : string) : option (string * string) :=
  if startswith sep s then Some ("", drop (String.length sep) s)
  else match s with
       | "" => None
       | String c s' =>
           match cut sep s' with
           | Some (a, b) => Some (String c a, b)
           | None => None
           end
       end.

(** [sep in s] *)
Definition contains (sep s : string) : bool :=
  match cut sep s with Some _ => true | None => false end.

(** [s.split(sep, maxsplit)]: at most [maxsplit] cuts, leftmost first. *)
Fixpoint split_max (sep : string) (maxsplit : nat) (s : string) : list string :=
  match maxsplit with
  | O => [s]
  | S n =>
      match cut sep s with
      | None => [s]
      | Some (a, b) => a :: split_max sep n b
      end
  end.

(** [s.split(sep)]: a non-empty separator occurs at most [len(s)] times. *)
Definition split (sep s : string) : list string :=
  split_max sep (String.length s) s.

(** [sep.join(parts)] *)
Fixpoint join (sep : string) (parts : list string) : string :=
  match parts with
  | [] => ""
  | [p] => p
  | p :: ps => p +:+ sep +:+ join sep ps
  end.

(** [s.replace(old, new)] for a non-empty [old]. *)
Definition replace (old new s : string) : string :=
  join new (split old s).

(** [s.lstrip(chars)], [s.rstrip(chars)], [s.strip(chars)] *)
Fixpoint lstrip_chars (chars : string) (s : string) : string :=
  match s with
  | "" => ""
  | String c s' =>
      if contains (chr c) chars then lstrip_chars chars s' else s
  end.

Definition rstrip_chars (chars s : string) : string :=
  String.rev (lstrip_chars chars (String.rev s)).

Definition strip_chars (chars s : string) : string :=
  rstrip_chars chars (lstrip_chars chars s).

(** White space as [str.strip()] sees it: the code points
    U+0009..U+000D, U+001C..U+0020, U+0085, U+00A0, U+1680,
    U+2000..U+200A, U+2028, U+2029, U+202F, U+205F and U+3000,
    here in their UTF-8 encodings of one, two and three bytes. *)
Definition ws1 (c : ascii) : bool :=
  let n := nat_of_ascii c in
  ((9 <=? n) && (n <=? 13) || (28 <=? n) && (n <=? 32))%nat.

Definition ws2 (c1 c2 : ascii) : bool :=
  let a := nat_of_ascii c1 in
  let b := nat_of_ascii c2 in
  ((a =? 194) && ((b =? 133) || (b =? 160)))%nat.

Definition ws3 (c1 c2 c3 : ascii) : bool :=
  let a := nat_of_ascii c1 in
  let b := nat_of_ascii c2 in
  let c := nat_of_ascii c3 in
  ((a =? 225) && (b =? 154) && (c =? 128)
   || (a =? 226) && (b =? 128)
      && ((128 <=? c) && (c <=? 138) || (c =? 168) || (c =? 169) || (c =? 175))
   || (a =? 226) && (b =? 129) && (c =? 159)
   || (a =? 227) && (b =? 128) && (c =? 128))%nat.

(** Dropping leading white space. [backwards] reads the bytes of a
    character in reverse, for use on a reversed string. *)
Fixpoint lstrip_ws (backwards : bool) (s : string) : string :=
  match s with
  | "" => ""
  | String c1 s1 =>
      if ws1 c1 then lstrip_ws backwards s1
      else
        match s1 with
        | "" => s
        | String c2 s2 =>
            if (if backwards then ws2 c2 c1 else ws2 c1 c2)
            then lstrip_ws backwards s2
            else
              match s2 with
              | "" => s
              | String c3 s3 =>
                  if (if backwards then ws3 c3 c2 c1 else ws3 c1 c2 c3)
                  then lstrip_ws backwards s3
                  else s
              end
        end
  end.

Definition lstrip (s : string) : string := lstrip_ws false s.
Definition rstrip (s : string) : string :=
  String.rev (lstrip_ws true (String.rev s)).

(** [s.strip()] *)
Definition strip (s : string) : string := rstrip (lstrip s).

End PyStr.

Import PyStr.

(** ** The fragment of [re] the link pattern is written in

    A backtracking matcher with greedy quantifiers, in continuation-passing
    style: a quantifier first tries to consume, and gives way only when the
    rest of the pattern fails. Capturing groups are numbered in the order in
    which they close, which for groups that do not nest is the order of
    their opening parentheses. *)

Module Re.

Inductive cclass : Type :=
| Only (c : ascii)       (* a literal or escaped character *)
| Except (c : ascii).    (* [^c] *)

Definition accepts (cl : cclass) (a : ascii) : bool :=
  match cl with
  | Only c => bool_decide (a = c)
  | Except c => negb (bool_decide (a = c))
  end.

Inductive regex : Type :=
| Eps                    (* the empty pattern *)
| Chr (cl : cclass)
| Cat (r1 r2 : regex)
| Opt (r : regex)        (* r?  *)
| Plus (cl : cclass)     (* cl+ *)
| Group (r : regex).     (* (r) *)

Section matcher.
Context {R : Type}.

(** [cl+]: one character of the class, then as many more as the
    continuation allows, longest first. [pos] counts the characters
    matched so far. *)
Fixpoint plus_loop (cl : cclass) (s : string) (pos : nat)
    (k : string → nat → option R) : option R :=
  match s with
  | "" => None
  | String a s' =>
      if accepts cl a then
        match plus_loop cl s' (S pos) k with
        | Some r => Some r
        | None => k s' (S pos)
        end
      else None
  end.

Fixpoint rmatch (r : regex) (s : string) (pos : nat) (caps : list string)
    (k : string → nat → list string → option R) : option R :=
  match r with
  | Eps => k s pos caps
  | Chr cl =>
      match s with
      | "" => None
      | String a s' => if accepts cl a then k s' (S pos) caps else None
      end
  | Cat r1 r2 =>
      rmatch r1 s pos caps (λ s1 pos1 caps1, rmatch r2 s1 pos1 caps1 k)
  | Opt r1 =>
      match rmatch r1 s pos caps k with
      | Some x => Some x
      | None => k s pos caps
      end
  | Plus cl => plus_loop cl s pos (λ s' pos', k s' pos' caps)
  | Group r1 =>
      rmatch r1 s pos caps
        (λ s' pos' caps', k s' pos' (caps' ++ [take (pos' - pos) s]))
  end.
End matcher.

(** A match anchored at the start of [s]: the captured groups and the
    length of the match. *)
Definition match_here (r : regex) (s : string) : option (list string * nat) :=
  rmatch r s 0 [] (λ _ pos caps, Some (caps, pos)).

(** [re.finditer]: leftmost matches, scanning resumes where the previous
    match ended. [skip] counts the characters of the current match that
    are still to be passed over. *)
Fixpoint finditer_from (r : regex) (skip : nat) (s : string) : list (list string) :=
  match s with
  | "" => []
  | String _ s' =>
      match skip with
      | S n => finditer_from r n s'
      | O =>
          match match_here r s with
          | Some (caps, len) => caps :: finditer_from r (len - 1) s'
          | None => finditer_from r 0 s'
          end
      end
  end.

Definition finditer (r : regex) (s : string) : list (list string) :=
  finditer_from r 0 s.

(** [match.group(n)] for [n >= 1] *)
Definition group (n : nat) (caps : list string) : string :=
  default "" (caps !! (n - 1)).

Definition lit (c : ascii) : regex := Chr (Only c).
Definition seq (rs : list regex) : regex := foldr Cat Eps rs.

End Re.

(** ** [os.path.basename], as [posixpath] has it: [p[p.rfind('/') + 1:]] *)

Module Posix.

(** Index of the last occurrence of [c], if any. *)
Fixpoint rfind (c : ascii) (p : string) : option nat :=
  match p with
  | "" => None
  | String a p' =>
      match rfind c p' with
      | Some i => Some (S i)
      | None => if decide (a = c) then Some 0 else None
      end
  end.

Definition basename (p : string) : string :=
  match rfind "/"%char p with
  | Some i => drop (S i) p
  | None => p
  end.

End Posix.

(** ** Front matter and links of one note *)

(** [extract_yaml_frontmatter]. The dictionary is updated line by line, so
    a later line with the same key replaces an earlier one. *)
Definition frontmatter_line (frontmatter : gmap string string) (line : string)
  : gmap string string :=
  if contains ":" line then
    match split_max ":" 1 line with
    | [key; value] =>
        <[strip key :=
            strip_chars (chr SQUOTE) (strip_chars (chr DQUOTE) (strip value))]>
          frontmatter
    | _ => frontmatter
    end
  else frontmatter.

Definition extract_yaml_frontmatter (content : string) : gmap string string :=
  if startswith "---" content then
    match split_max "---" 2 content with
    | _ :: yaml :: _ :: _ =>
        let yaml_content := strip yaml in
        foldl frontmatter_line ∅ (split (chr LF) yaml_content)
    | _ => ∅
    end
  else ∅.

(** The pattern [\[([^\]]+)\]\(\.?/?([^\)]+\.md)\)]. *)
Definition link_pattern : Re.regex :=
  Re.seq
    [ Re.lit "[";
      Re.Group (Re.Plus (Re.Except "]"));
      Re.lit "]";
      Re.lit "(";
      Re.Opt (Re.lit ".");
      Re.Opt (Re.lit "/");
      Re.Group (Re.seq [Re.Plus (Re.Except ")"); Re.lit "."; Re.lit "m"; Re.lit "d"]);
      Re.lit ")" ]%char.

(** [extract_links]: the pairs (link text, file name) in source order. *)
Definition extract_links (content : string) : list (string * string) :=
  (λ m,
     let link_text := Re.group 1 m in
     let file_path := Re.group 2 m in
     let filename := Posix.basename file_path in
     let filename := replace "./" "" filename in
     (link_text, filename)) <$> Re.finditer link_pattern content.

(** ** The note directory

    What the script sees of the file system: whether [SRC_DIR] exists and,
    if it does, the entries [SRC_DIR.glob("*.md")] yields, each with the
    outcome of opening and reading it. Any exception raised there (an I/O
    error, a directory named like a note, bytes that are not UTF-8) is a
    failed read carrying the text of the exception; a successful read
    carries the text [f.read()] returns. *)

Inductive read_result : Type :=
| ReadOk (content : string)
| ReadError (e : string).

Record note_file : Type := {
  file_path : string;     (* str(file_path) *)
  name : string;          (* file_path.name *)
  read : read_result;
}.

#[global] Instance read_result_eq_dec : EqDecision read_result.
Proof. solve_decision. Defined.

#[global] Instance note_file_eq_dec : EqDecision note_file.
Proof. solve_decision. Defined.

(** [None]: the directory does not exist. *)
Definition src_dir : Type := option (list note_file).

(** ** [scan_notes] *)

Module Scan.

(** The local accumulators of [scan_notes], and what it has printed. *)
Record state : Type := {
  stdout : list string;
  existing_notes : gmap string string;
  all_links : gmap string (list string);
  broken_links : gmap string (list string);
  files_linking_to : gmap string (gset string);
}.

Definition init : state :=
  {| stdout := []; existing_notes := ∅; all_links := ∅;
     broken_links := ∅; files_linking_to := ∅ |}.

(** [d[key].append(x)] on a [defaultdict(list)] *)
Definition dd_append (key x : string) (d : gmap string (list string))
  : gmap string (list string) :=
  <[key := default [] (d !! key) ++ [x]]> d.

(** [d[key].add(x)] on a [defaultdict(set)] *)
Definition dd_add (key x : string) (d : gmap string (gset string))
  : gmap string (gset string) :=
  <[key := default ∅ (d !! key) ∪ {[x]}]> d.

(** The body of [for link_text, linked_filename in links]. *)
Definition add_link (existing_files : gset string) (filename : string)
    (st : state) (link : string * string) : state :=
  let '(link_text, linked_filename) := link in
  {| stdout := stdout st;
     existing_notes := existing_notes st;
     all_links := dd_append linked_filename link_text (all_links st);
     broken_links :=
       if decide (linked_filename ∈ existing_files) then broken_links st
       else dd_append linked_filename link_text (broken_links st);
     files_linking_to := dd_add linked_filename filename (files_linking_to st) |}.

Definition read_error_message (path e : string) : string :=
  "Ошибка при чтении " +:+ path +:+ ": " +:+ e.

Definition print (line : string) (st : state) : state :=
  {| stdout := stdout st ++ [line];
     existing_notes := existing_notes st;
     all_links := all_links st;
     broken_links := broken_links st;
     files_linking_to := files_linking_to st |}.

Definition set_title (title filename : string) (st : state) : state :=
  {| stdout := stdout st;
     existing_notes := <[title := filename]> (existing_notes st);
     all_links := all_links st;
     broken_links := broken_links st;
     files_linking_to := files_linking_to st |}.

(** [frontmatter.get("title", "")] of a note's content *)
Definition title_of (content : string) : string :=
  let frontmatter := extract_yaml_frontmatter content in
  default "" (frontmatter !! "title").

(** The body of the scanning loop, for one directory entry. *)
Definition scan_file (existing_files : gset string) (st : state)
    (f : note_file) : state :=
  let filename := name f in
  match read f with
  | ReadError e => print (read_error_message (file_path f) e) st
  | ReadOk content =>
      let title := title_of content in
      let st := if decide (title = "") then st else set_title title filename st in
      let links := extract_links content in
      foldl (add_link existing_files filename) st links
  end.

Definition scan_files (existing_files : gset string) (files : list note_file)
    (st : state) : state :=
  foldl (scan_file existing_files) st files.

End Scan.

(** [list(dict.fromkeys(l))]: the distinct elements in the order of their
    first occurrence. *)
Definition dict_fromkeys (l : list string) : list string :=
  foldl (λ keys x, if decide (x ∈ keys) then keys else keys ++ [x]) [] l.

(** [sorted(list(value))]. Python orders strings by code point, which on
    UTF-8 text is the order of the encoded bytes. *)
Definition sorted (value : gset string) : list string :=
  merge_sort String.le (elements value).

(** The four maps [scan_notes] returns, in the order of its [return]. *)
Definition link_maps : Type :=
  gmap string string * gmap string (list string)
  * gmap string (list string) * gmap string (list string).

(** The statements after the scanning loop: duplicates removed from the
    two lists of link texts, the sets of linking files sorted. *)
Definition returned (st : Scan.state) : link_maps :=
  let all_links := dict_fromkeys <$> Scan.all_links st in
  let broken_links := dict_fromkeys <$> Scan.broken_links st in
  let files_linking_to_serializable := sorted <$> Scan.files_linking_to st in
  (Scan.existing_notes st, all_links, broken_links, files_linking_to_serializable).

(** [scan_notes]: what it prints, and what it returns. Each of the two
    loops over [SRC_DIR.glob("*.md")] runs only if the directory exists;
    both see the same listing. *)
Definition scan_notes (d : src_dir) : list string * link_maps :=
  let existing_files : gset string :=
    match d with
    | Some files => foldl (λ existing_files f, existing_files ∪ {[name f]}) ∅ files
    | None => ∅
    end in
  let st :=
    match d with
    | Some files => Scan.scan_files existing_files files Scan.init
    | None => Scan.init
    end in
  (Scan.stdout st, returned st).

(** ** [generate_json_mapping] *)

Record statistics_t : Type := {
  total_existing_notes : nat;
  total_linked_files : nat;
  total_broken_links : nat;
  total_broken_link_mentions : nat;
}.

Record json_mapping : Type := {
  existing_notes : gmap string string;
  broken_links : gmap string (list string);
  all_links : gmap string (list string);
  files_linking_to : gmap string (list string);
  statistics : statistics_t;
}.

(** [d.values()] *)
Definition values {V} (d : gmap string V) : list V := (map_to_list d).*2.

Definition generate_json_mapping
    (existing_notes : gmap string string)
    (all_links broken_links files_linking_to : gmap string (list string))
  : json_mapping :=
  {| existing_notes := existing_notes;
     broken_links := broken_links;
     all_links := all_links;
     files_linking_to := files_linking_to;
     statistics :=
       {| total_existing_notes := size existing_notes;
          total_linked_files := size all_links;
          total_broken_links := size broken_links;
          total_broken_link_mentions := sum_list (length <$> values broken_links) |} |}.

(** The mapping [main] hands to [json.dump]. *)
Definition main_json_mapping (d : src_dir) : json_mapping :=
  let '(existing_notes, all_links, broken_links, files_linking_to) := (scan_notes d).2 in
  generate_json_mapping existing_notes all_links broken_links files_linking_to.

(** ** [generate_markdown_mapping] *)

(** [str(n)], as an f-string renders a count. *)
Definition str_nat (n : nat) : string :=
  NilEmpty.string_of_uint (Nat.to_uint n).

(** [sorted(d.items(), key=lambda x: x[0])]: the keys of a dictionary are
    distinct, so the order of the result does not depend on the order in
    which the dictionary yields its items. *)
Definition sorted_items {V} (d : gmap string V) : list (string * V) :=
  merge_sort (λ x y, String.le x.1 y.1) (map_to_list d).

Definition backticked (text : string) : string := "`" +:+ text +:+ "`".

(** The body of [for title, filename in sorted_notes]. *)
Definition note_row (all_links files_linking_to : gmap string (list string))
    (item : string * string) : string :=
  let '(title, filename) := item in
  let link_count := length (default [] (all_links !! filename)) in
  let files_count := length (default [] (files_linking_to !! filename)) in
  let status := if decide (0 < link_count) then "[OK]" else "[!]" in
  "| " +:+ title +:+ " | `" +:+ filename +:+ "` | " +:+ str_nat link_count
    +:+ " " +:+ status +:+ " | " +:+ str_nat files_count +:+ " |".

(** The body of [for filename, link_texts in sorted_broken]. *)
Definition broken_row (item : string * list string) : string :=
  let '(filename, link_texts) := item in
  let unique_texts := dict_fromkeys link_texts in
  let texts_str := join ", " (backticked <$> firstn 5 unique_texts) in
  let texts_str :=
    if decide (5 < length unique_texts)
    then texts_str +:+ " ... (+" +:+ str_nat (length unique_texts - 5) +:+ " еще)"
    else texts_str in
  "| `" +:+ filename +:+ "` | " +:+ texts_str +:+ " |".

Definition markdown_header : list string :=
  [ "# Маппинг ссылок в базе знаний";
    "";
    "Этот файл содержит полный маппинг всех ссылок в базе знаний:";
    "- Существующие заметки с их названиями";
    "- Все ссылки на заметки (существующие и несуществующие)";
    "- Варианты названий, которые ссылаются на одну и ту же заметку";
    "";
    "---";
    "";
    "## Существующие заметки";
    "";
    "| Название | Имя файла | Количество ссылок | Файлов ссылается |";
    "|----------|-----------|-------------------|------------------|" ].

Definition markdown_broken_header : list string :=
  [ "";
    "---";
    "";
    "## Битые ссылки (несуществующие файлы)";
    "";
    "| Имя файла | Варианты названий |";
    "|-----------|-------------------|" ].

(** The section of the broken links, present only [if broken_links]. *)
Definition markdown_broken_section (broken_links : gmap string (list string))
  : list string :=
  if decide (broken_links = ∅) then []
  else markdown_broken_header ++ (broken_row <$> sorted_items broken_links).

Definition markdown_statistics
    (existing_notes : gmap string string)
    (all_links broken_links : gmap string (list string)) : list string :=
  [ "";
    "---";
    "";
    "## Статистика";
    "";
    "- Всего существующих заметок: " +:+ str_nat (size existing_notes);
    "- Всего файлов со ссылками: " +:+ str_nat (size all_links);
    "- Всего битых ссылок: " +:+ str_nat (size broken_links);
    "- Всего упоминаний битых ссылок: "
      +:+ str_nat (sum_list (length <$> values broken_links)) ].

(** The list [lines] when [generate_markdown_mapping] returns. *)
Definition markdown_lines
    (existing_notes : gmap string string)
    (all_links broken_links files_linking_to : gmap string (list string))
  : list string :=
  markdown_header
  ++ (note_row all_links files_linking_to <$> sorted_items existing_notes)
  ++ markdown_broken_section broken_links
  ++ markdown_statistics existing_notes all_links broken_links.

Definition generate_markdown_mapping
    (existing_notes : gmap string string)
    (all_links broken_links files_linking_to : gmap string (list string))
  : string :=
  join (chr LF)
    (markdown_lines existing_notes all_links broken_links files_linking_to).

(** ** [find_broken_links_geography] of [find_broken_links_geography.py]

    [data] is the mapping loaded from [LINK_MAPPING.json], [None] when the
    file does not exist; [mapping_path] is [str(LINK_MAPPING_JSON)]. The
    function prints two lines when the file is missing. *)
Definition find_broken_links_geography (mapping_path : string)
    (data : option json_mapping) (d : src_dir)
  : list string * gmap string (list string) :=
  match data with
  | None =>
      ([ "Файл " +:+ mapping_path +:+ " не найден!";
         "Сначала запустите build_link_mapping.py для создания маппинга ссылок." ],
       ∅)
  | Some data =>
      let existing_files : gset string :=
        match d with
        | Some files => foldl (λ existing_files f, existing_files ∪ {[name f]}) ∅ files
        | None => ∅
        end in
      ([], filter (λ item, item.1 ∉ existing_files) (broken_links data))
  end.

(** ** [find_poor_content_files] of [find_poor_content_geography.py] *)

Module Poor.

Definition MIN_CONTENT_LINES : nat := 5.

(** The state of [for line in lines]: the flag [in_frontmatter] and the
    list [content_lines]. *)
Definition line_step (st : bool * list string) (line : string)
  : bool * list string :=
  let '(in_frontmatter, content_lines) := st in
  if decide (strip line = "---") then (negb in_frontmatter, content_lines)
  else if in_frontmatter then st
  else
    let stripped := strip line in
    if bool_decide (stripped ≠ "") && negb (startswith "#" stripped)
    then (in_frontmatter, content_lines ++ [stripped])
    else st.

Definition content_lines (content : string) : list string :=
  (foldl line_step (false, []) (split (chr LF) content)).2.

(** [[l for l in content_lines if not l.startswith('#')]] *)
Definition non_header_lines (content : string) : list string :=
  filter (λ l, startswith "#" l = false) (content_lines content).

(** What has been printed, and the dictionary [poor_content_files]. *)
Definition state : Type := list string * gmap nat (list string).

(** [d[key].append(x)] on a [defaultdict(list)] keyed by a count *)
Definition dd_append (key : nat) (x : string) (d : gmap nat (list string))
  : gmap nat (list string) :=
  <[key := default [] (d !! key) ++ [x]]> d.

(** The body of the loop over the directory; the name of an entry of
    [SRC_DIR.glob("*.md")] is its path relative to [SRC_DIR]. *)
Definition scan_file (st : state) (f : note_file) : state :=
  let '(stdout, poor_content_files) := st in
  match read f with
  | ReadError e =>
      (stdout ++ ["Ошибка при обработке " +:+ file_path f +:+ ": " +:+ e],
       poor_content_files)
  | ReadOk content =>
      if contains "topic: География" content then
        let n := length (non_header_lines content) in
        if decide (n < MIN_CONTENT_LINES)
        then (stdout, dd_append n (name f) poor_content_files)
        else st
      else st
  end.

(** [find_poor_content_files]; [src_path] is [str(SRC_DIR)]. *)
Definition find_poor_content_files (src_path : string) (d : src_dir) : state :=
  match d with
  | None => (["Папка " +:+ src_path +:+ " не существует!"], ∅)
  | Some files => foldl scan_file ([], ∅) files
  end.

End Poor.

(** ** [get_default_frontmatter] of [create_note.py]

    [lower] stands for [str.lower], whose tables are not modelled: the
    function is taken as it is for any result of lowering the template
    name. *)

Section default_note.
Variable lower : string → string.

Definition get_default_frontmatter (name template_name : string) : string :=
  let note_category := "География" in
  let template_lower := lower template_name in
  let '(note_type, note_status) :=
    if contains "literature" template_lower then ("Literature", "IN PROGRESS")
    else if contains "project" template_lower then ("Project", "IN PROGRESS")
    else ("Evergreen", "IN PROGRESS") in
  "---" +:+ chr LF
  +:+ "title: " +:+ name +:+ chr LF
  +:+ "type: " +:+ note_type +:+ chr LF
  +:+ "status: " +:+ note_status +:+ chr LF
  +:+ "category: " +:+ note_category +:+ chr LF
  +:+ "topic: География" +:+ chr LF
  +:+ "---" +:+ chr LF
  +:+ chr LF
  +:+ "# " +:+ name +:+ chr LF
  +:+ chr LF.

End default_note.

(** ** What the notes mention *)

(** The directory listing, empty without the directory. *)
Definition glob_md (d : src_dir) : list note_file := default [] d.

(** The names in a listing. *)
Definition existing_files_of (files : list note_file) : gset string :=
  list_to_set (name <$> files).

(** The links of a directory entry as the scanning loop sees them: those
    of its content, none when it cannot be read. *)
Definition file_links (f : note_file) : list (string * string) :=
  match read f with
  | ReadOk content => extract_links content
  | ReadError _ => []
  end.

(** The link texts among [links] that point at [target], in order. *)
Definition texts_to (target : string) (links : list (string * string))
  : list string :=
  (filter (λ link, link.2 = target) links).*1.

(** All link texts pointing at [target], in scanning order. *)
Definition mention_texts (target : string) (files : list note_file) : list string :=
  texts_to target (files ≫= file_links).

(** The names of the entries that mention [target], in scanning order. *)
Definition linkers_to (target : string) (files : list note_file) : list string :=
  name <$> filter (λ f, texts_to target (file_links f) ≠ []) files.

(** A [defaultdict] entry after more values were appended or added. *)
Definition dd_extend (old : option (list string)) (new : list string)
  : option (list string) :=
  match new with
  | [] => old
  | _ => Some (default [] old ++ new)
  end.

Definition dd_union (old : option (gset string)) (new : list string)
  : option (gset string) :=
  match new with
  | [] => old
  | _ => Some (default ∅ old ∪ list_to_set new)
  end.

(** The distinct elements of [l] not yet in [seen], first occurrences
    first: the reading of [dict.fromkeys] as a list with a set of the keys
    already inserted. *)
Fixpoint first_seen (seen : gset string) (l : list string) : list string :=
  match l with
  | [] => []
  | x :: l' =>
      if decide (x ∈ seen) then first_seen seen l'
      else x :: first_seen ({[x]} ∪ seen) l'
  end.

(** Some readable entry of [files] contains a link with text [text] to
    [target]. *)
Definition mentions (files : list note_file) (text target : string) : Prop :=
  ∃ f content,
    f ∈ files ∧ read f = ReadOk content ∧ (text, target) ∈ extract_links content.

(** The accumulators when the scanning loop ends. *)
Definition final_state (d : src_dir) : Scan.state :=
  Scan.scan_files (existing_files_of (glob_md d)) (glob_md d) Scan.init.

(** What the scanning loop prints: one line per entry that cannot be
    read, in scanning order. *)
Definition read_errors (files : list note_file) : list string :=
  files ≫= λ f,
    match read f with
    | ReadOk _ => []
    | ReadError e => [Scan.read_error_message (file_path f) e]
    end.

(** Two states of the loop with the same four accumulators. *)
Definition same_maps (st1 st2 : Scan.state) : Prop :=
  Scan.existing_notes st1 = Scan.existing_notes st2
  ∧ Scan.all_links st1 = Scan.all_links st2
  ∧ Scan.broken_links st1 = Scan.broken_links st2
  ∧ Scan.files_linking_to st1 = Scan.files_linking_to st2.

(** An entry with the same path and name, read as an empty note. *)
Definition emptied (f : note_file) : note_file :=
  {| file_path := file_path f; name := name f; read := ReadOk "" |}.

(** The two totals the broken-links report derives from a [broken_links]
    map it has loaded ([generate_output] in
    [find_broken_links_geography.py]). *)
Definition derived_totals (broken_links : gmap string (list string)) : nat * nat :=
  let total_links := size broken_links in
  let total_mentions := sum_list (length <$> values broken_links) in
  (total_links, total_mentions).

(** The value stored for a front-matter line [key: value]. *)
Definition unquoted (value : string) : string :=
  strip_chars (chr SQUOTE) (strip_chars (chr DQUOTE) (strip value)).

(** The description says: one layer of surrounding quote characters
    stripped. A layer is a pair of equal quote characters around the
    text. *)
Definition one_quote_layer_stripped (s : string) : string :=
  match s with
  | String q s' =>
      if bool_decide (q = DQUOTE ∨ q = SQUOTE) then
        match String.rev s' with
        | String q' inner_rev =>
            if bool_decide (q' = q) then String.rev inner_rev else s
        | "" => s
        end
      else s
  | "" => s
  end.

(** A link with text [text] to [target], found in the entry [f], is in
    the returned maps [maps]: its text is listed for the target, the entry
    is listed among the files linking to it, and a target that is no
    existing file has the same list in [broken_links]. *)
Definition recorded (existing_files : gset string) (maps : link_maps)
    (f : note_file) (text target : string) : Prop :=
  let '(_, all_links, broken_links, files_linking_to) := maps in
  (∃ texts, all_links !! target = Some texts ∧ text ∈ texts)
  ∧ (∃ sources, files_linking_to !! target = Some sources ∧ name f ∈ sources)
  ∧ broken_links !! target
    = if decide (target ∈ existing_files) then None else all_links !! target.

(** ** Sample directories *)

Definition note (n : string) (r : read_result) : note_file :=
  {| file_path := "src/" +:+ n; name := n; read := r |}.

Definition lines (ls : list string) : string := join (chr LF) ls.

Definition dir_alpha_beta : src_dir :=
  Some [ note "A.md" (ReadOk (lines ["---"; "title: Alpha"; "---"; "[Beta](b.md)"]));
         note "b.md" (ReadOk (lines ["---"; "title: Beta"; "---"; ""])) ].

Definition dir_gamma : src_dir :=
  Some [ note "A.md" (ReadOk "[Gamma](c.md) and [Gamma2](c.md)") ].

Definition dir_unreadable : src_dir :=
  Some [ note "A.md" (ReadOk "[Gamma](c.md) [Gamma](c.md) [me](A.md)");
         note "z.md" (ReadError "Permission denied");
         note "B.md" (ReadOk "[Zed](z.md) [Gamma3](c.md)") ].

Definition DQ : string := chr DQUOTE.

(** A note whose title is quoted twice. *)
Definition twice_quoted_value : string := " " +:+ DQ +:+ DQ +:+ "X" +:+ DQ +:+ DQ.
Definition twice_quoted_note : string :=
  lines ["---"; "title:" +:+ twice_quoted_value; "---"; "text"].

(** A note with a front matter of three lines. *)
Definition greeting_yaml : string :=
  lines [""; "author: me"; " title : " +:+ DQ +:+ "'Привет'" +:+ DQ +:+ " ";
         "tags: a, b"; ""].
Definition greeting_note : string :=
  "---" +:+ greeting_yaml +:+ "---" +:+ lines [""; "[Beta](b.md)"].

(** A note whose front matter is never closed. *)
Definition unclosed_body : string :=
  lines [""; "title: Lost"; "--"; "[Gamma](c.md) and [Beta](b.md)"].
Definition dir_unclosed : src_dir :=
  Some [ note "A.md" (ReadOk ("---" +:+ unclosed_body));
         note "b.md" (ReadOk "") ].

(** A link to a note, as the comment in [extract_links] writes it:
    [[text](./filename.md)] for the prefix [./] and [[text](filename.md)]
    for the empty prefix, [stem] being the name without its suffix. *)
Definition markdown_link (text prefix stem : string) : string :=
  "[" +:+ text +:+ "](" +:+ prefix +:+ stem +:+ ".md)".

(** A note that repeats a link text after another one. *)
Definition dir_repeated : src_dir :=
  Some [ note "r.md" (ReadOk "[A](x.md) then [B](x.md), again [A](x.md)");
         note "s.md" (ReadOk "[C](x.md) and [B](x.md)") ].

(** Two notes with the two links of C4, and one without. *)
Definition dir_two_links : src_dir :=
  Some [ note "one.md" (ReadOk "see [A](./x.md), then [B](x.md) and [C](y.md)");
         note "two.md" (ReadOk "[A](./x.md)[B](x.md)");
         note "x.md" (ReadOk "[A](one.md)") ].

(** ** Shapes of text *)

(** Every character of [s] satisfies [P]. *)
Fixpoint chars_all (P : ascii → bool) (s : string) : bool :=
  match s with
  | "" => true
  | String c s' => P c && chars_all P s'
  end.

(** [s.endswith(suffix)], as a proposition. *)
Definition ends_with (suffix s : string) : Prop := ∃ stem, s = stem +:+ suffix.

(** The four components of what [scan_notes] returns. *)
Definition existing_notes_of (maps : link_maps) : gmap string string :=
  maps.1.1.1.
Definition all_links_of (maps : link_maps) : gmap string (list string) :=
  maps.1.1.2.
Definition broken_links_of (maps : link_maps) : gmap string (list string) :=
  maps.1.2.
Definition files_linking_to_of (maps : link_maps) : gmap string (list string) :=
  maps.2.

(** Three notes, two of which declare the same title. *)
Definition dir_same_title : src_dir :=
  Some [ note "old.md" (ReadOk (lines ["---"; "title: Volga"; "---"; "[Don](don.md)"]));
         note "new.md" (ReadOk (lines ["---"; "title: Volga"; "---"; "[Don](don.md)"]));
         note "don.md" (ReadOk (lines ["---"; "author: me"; "---"; "[V](old.md)"])) ].

(** A note on geography with an open front matter, and one with two lines
    of text under a rule. *)
Definition unclosed_geography : string :=
  lines ["---"; "topic: География"; "title: Lost"; "text"; "more text"].
Definition short_geography : string :=
  lines ["---"; "topic: География"; "---"; "# Head"; ""; "one"; " two ";
         "---"; "hidden"; "---"; "three"].
Definition dir_geography : src_dir :=
  Some [ note "lost.md" (ReadOk unclosed_geography);
         note "short.md" (ReadOk short_geography);
         note "other.md" (ReadOk "no topic here");
         note "gone.md" (ReadError "Permission denied") ].

(** The count under which [find_poor_content_files] lists an entry, if
    it lists it. *)
Definition poor_count (f : note_file) : option nat :=
  match read f with
  | ReadError _ => None
  | ReadOk content =>
      if contains "topic: География" content then
        let n := length (Poor.non_header_lines content) in
        if decide (n < Poor.MIN_CONTENT_LINES) then Some n else None
      else None
  end.

(** The names of the entries listed under [n], in scanning order. *)
Definition poor_names (n : nat) (files : list note_file) : list string :=
  name <$> filter (λ f, poor_count f = Some n) files.

(** * Facts *)

Section texts.
Implicit Types (links : list (string * string)) (t : string).

Lemma texts_to_nil t : texts_to t [] = [].
Proof. reflexivity. Qed.

Lemma texts_to_cons t txt tgt links :
  texts_to t ((txt, tgt) :: links) =
    if decide (tgt = t) then txt :: texts_to t links else texts_to t links.
Proof.
  unfold texts_to. rewrite filter_cons. simpl.
  destruct (decide (tgt = t)); reflexivity.
Qed.

Lemma texts_to_app t links1 links2 :
  texts_to t (links1 ++ links2) = texts_to t links1 ++ texts_to t links2.
Proof. unfold texts_to. by rewrite filter_app, fmap_app. Qed.

Lemma elem_of_texts_to t txt links :
  txt ∈ texts_to t links ↔ (txt, t) ∈ links.
Proof.
  unfold texts_to. rewrite list_elem_of_fmap. split.
  - intros [[a b] [-> [Hb Hin]%list_elem_of_filter]]. simpl in *. by subst.
  - intros Hin. exists (txt, t). split; [done|].
    apply list_elem_of_filter. by split.
Qed.

Lemma texts_to_nil_iff t links :
  texts_to t links = [] ↔ ∀ txt, (txt, t) ∉ links.
Proof.
  split.
  - intros Hnil txt Hin. apply elem_of_texts_to in Hin.
    rewrite Hnil in Hin. by apply not_elem_of_nil in Hin.
  - intros Hno. destruct (texts_to t links) as [|txt l] eqn:E; [done|].
    exfalso. apply (Hno txt), elem_of_texts_to. rewrite E. by left.
Qed.

Lemma dd_extend_app old l1 l2 :
  dd_extend (dd_extend old l1) l2 = dd_extend old (l1 ++ l2).
Proof.
  destruct l1 as [|x l1]; [done|].
  destruct l2 as [|y l2]; simpl.
  - by rewrite app_nil_r.
  - by rewrite <- app_assoc.
Qed.

Lemma dd_union_app old l1 l2 :
  dd_union (dd_union old l1) l2 = dd_union old (l1 ++ l2).
Proof.
  destruct l1 as [|x l1]; [done|].
  destruct l2 as [|y l2]; simpl.
  - by rewrite app_nil_r.
  - f_equal. rewrite list_to_set_app_L. simpl.
    by rewrite <- !(assoc_L (∪)).
Qed.
End texts.

(** ** The scanning loop, entry by entry *)

Section loop.
Variable existing_files : gset string.
Implicit Types (st : Scan.state) (t : string).

Local Abbreviation add_links fn := (foldl (Scan.add_link existing_files fn)).

Lemma add_links_stdout fn links st :
  Scan.stdout (add_links fn st links) = Scan.stdout st.
Proof.
  revert st. induction links as [|[txt tgt] links IH]; intros st; [done|].
  simpl. by rewrite IH.
Qed.

Lemma add_links_existing_notes fn links st :
  Scan.existing_notes (add_links fn st links) = Scan.existing_notes st.
Proof.
  revert st. induction links as [|[txt tgt] links IH]; intros st; [done|].
  simpl. by rewrite IH.
Qed.

Lemma add_links_all fn links st t :
  Scan.all_links (add_links fn st links) !! t
  = dd_extend (Scan.all_links st !! t) (texts_to t links).
Proof.
  revert st. induction links as [|[txt tgt] links IH]; intros st; [done|].
  simpl. rewrite IH, texts_to_cons. simpl. unfold Scan.dd_append.
  rewrite lookup_insert. destruct (decide (tgt = t)) as [->|Hne]; [|done].
  change (txt :: texts_to t links) with ([txt] ++ texts_to t links).
  by rewrite <- dd_extend_app.
Qed.

Lemma add_links_broken fn links st t :
  Scan.broken_links (add_links fn st links) !! t
  = if decide (t ∈ existing_files) then Scan.broken_links st !! t
    else dd_extend (Scan.broken_links st !! t) (texts_to t links).
Proof.
  revert st. induction links as [|[txt tgt] links IH]; intros st.
  { simpl. by destruct (decide _). }
  simpl. rewrite IH, texts_to_cons. simpl.
  destruct (decide (t ∈ existing_files)) as [Hin|Hout].
  - destruct (decide (tgt ∈ existing_files)) as [|Hout']; [done|].
    unfold Scan.dd_append. rewrite lookup_insert_ne; [done|].
    intros ->. contradiction.
  - destruct (decide (tgt = t)) as [->|Hne].
    + rewrite decide_False by done. unfold Scan.dd_append.
      rewrite lookup_insert_eq.
      change (txt :: texts_to t links) with ([txt] ++ texts_to t links).
      by rewrite <- dd_extend_app.
    + destruct (decide (tgt ∈ existing_files)); [done|].
      unfold Scan.dd_append. by rewrite lookup_insert_ne.
Qed.

Lemma add_links_linking fn links st t :
  Scan.files_linking_to (add_links fn st links) !! t
  = match texts_to t links with
    | [] => Scan.files_linking_to st !! t
    | _ => Some (default ∅ (Scan.files_linking_to st !! t) ∪ {[fn]})
    end.
Proof.
  revert st. induction links as [|[txt tgt] links IH]; intros st; [done|].
  simpl. rewrite IH, texts_to_cons. simpl. unfold Scan.dd_add.
  rewrite lookup_insert. destruct (decide (tgt = t)) as [->|Hne]; [|done].
  destruct (texts_to t links); simpl; [done|]. f_equal.
  by rewrite <- (assoc_L (∪)), (idemp_L (∪)).
Qed.

(** One directory entry. *)

Lemma scan_file_all st f t :
  Scan.all_links (Scan.scan_file existing_files st f) !! t
  = dd_extend (Scan.all_links st !! t) (texts_to t (file_links f)).
Proof.
  unfold Scan.scan_file, file_links. destruct (read f) as [content|e]; [|done].
  rewrite add_links_all. by destruct (decide _).
Qed.

Lemma scan_file_broken st f t :
  Scan.broken_links (Scan.scan_file existing_files st f) !! t
  = if decide (t ∈ existing_files) then Scan.broken_links st !! t
    else dd_extend (Scan.broken_links st !! t) (texts_to t (file_links f)).
Proof.
  unfold Scan.scan_file, file_links. destruct (read f) as [content|e].
  - rewrite add_links_broken. by destruct (decide (_ = _)).
  - simpl. by destruct (decide _).
Qed.

Lemma scan_file_linking st f t :
  Scan.files_linking_to (Scan.scan_file existing_files st f) !! t
  = dd_union (Scan.files_linking_to st !! t)
      (linkers_to t [f]).
Proof.
  unfold linkers_to. rewrite filter_cons, filter_nil.
  unfold Scan.scan_file, file_links. destruct (read f) as [content|e].
  - rewrite add_links_linking.
    assert (Scan.files_linking_to
              (if decide (Scan.title_of content = "") then st
               else Scan.set_title (Scan.title_of content) (name f) st)
            = Scan.files_linking_to st) as -> by by destruct (decide _).
    destruct (decide _) as [Hne|Heq].
    + destruct (texts_to t (extract_links content)); [done|].
      simpl. by rewrite (right_id_L ∅ (∪)).
    + apply dec_stable in Heq. by rewrite Heq.
  - by rewrite texts_to_nil, decide_False by auto.
Qed.

Lemma scan_file_titles st f title fn :
  Scan.existing_notes (Scan.scan_file existing_files st f) !! title = Some fn →
  Scan.existing_notes st !! title = Some fn
  ∨ (fn = name f ∧ ∃ content, read f = ReadOk content
                             ∧ Scan.title_of content = title ∧ title ≠ "").
Proof.
  unfold Scan.scan_file. destruct (read f) as [content|e]; [|by left].
  rewrite add_links_existing_notes.
  destruct (decide (Scan.title_of content = "")) as [|Hne]; [by left|].
  simpl. rewrite lookup_insert. destruct (decide _) as [<-|]; [|by left].
  intros [= <-]. right. eauto.
Qed.

(** The whole listing. *)

Lemma scan_files_app files1 files2 st :
  Scan.scan_files existing_files (files1 ++ files2) st
  = Scan.scan_files existing_files files2
      (Scan.scan_files existing_files files1 st).
Proof. unfold Scan.scan_files. apply foldl_app. Qed.

Lemma linkers_to_cons t f files :
  linkers_to t (f :: files) = linkers_to t [f] ++ linkers_to t files.
Proof.
  unfold linkers_to. rewrite !filter_cons, filter_nil.
  by destruct (decide _).
Qed.

Lemma scan_files_all files st t :
  Scan.all_links (Scan.scan_files existing_files files st) !! t
  = dd_extend (Scan.all_links st !! t) (mention_texts t files).
Proof.
  unfold mention_texts.
  revert st. induction files as [|f files IH]; intros st; [done|].
  change (Scan.scan_files existing_files (f :: files) st)
    with (Scan.scan_files existing_files files
            (Scan.scan_file existing_files st f)).
  by rewrite IH, scan_file_all, dd_extend_app, bind_cons, texts_to_app.
Qed.

Lemma scan_files_broken files st t :
  Scan.broken_links (Scan.scan_files existing_files files st) !! t
  = if decide (t ∈ existing_files) then Scan.broken_links st !! t
    else dd_extend (Scan.broken_links st !! t) (mention_texts t files).
Proof.
  unfold mention_texts.
  revert st. induction files as [|f files IH]; intros st.
  { simpl. by destruct (decide _). }
  change (Scan.scan_files existing_files (f :: files) st)
    with (Scan.scan_files existing_files files
            (Scan.scan_file existing_files st f)).
  rewrite IH, scan_file_broken. destruct (decide _); [done|].
  by rewrite dd_extend_app, bind_cons, texts_to_app.
Qed.

Lemma scan_files_linking files st t :
  Scan.files_linking_to (Scan.scan_files existing_files files st) !! t
  = dd_union (Scan.files_linking_to st !! t) (linkers_to t files).
Proof.
  revert st. induction files as [|f files IH]; intros st; [done|].
  change (Scan.scan_files existing_files (f :: files) st)
    with (Scan.scan_files existing_files files
            (Scan.scan_file existing_files st f)).
  by rewrite IH, scan_file_linking, dd_union_app, <- linkers_to_cons.
Qed.

Lemma scan_files_titles files st title fn :
  Scan.existing_notes (Scan.scan_files existing_files files st) !! title
    = Some fn →
  Scan.existing_notes st !! title = Some fn
  ∨ ∃ f content, f ∈ files ∧ name f = fn ∧ read f = ReadOk content
                 ∧ Scan.title_of content = title ∧ title ≠ "".
Proof.
  revert st. induction files as [|f files IH]; intros st; [by left|].
  change (Scan.scan_files existing_files (f :: files) st)
    with (Scan.scan_files existing_files files
            (Scan.scan_file existing_files st f)).
  intros [Hst|(f' & c & Hin & ? & ? & ? & ?)]%IH.
  - apply scan_file_titles in Hst as [?|[-> (c & ? & ? & ?)]]; [by left|].
    right. exists f, c. split_and!; try done. by left.
  - right. exists f', c. split_and!; try done. by right.
Qed.
End loop.


(** ** Removing duplicates *)

Section dedup.
Implicit Types (l keys : list string) (seen : gset string).

Local Abbreviation insert_key :=
  (λ keys x, if decide (x ∈ keys) then keys else keys ++ [x]).

Lemma foldl_insert_key keys l :
  foldl insert_key keys l = keys ++ first_seen (list_to_set keys) l.
Proof.
  revert keys. induction l as [|x l IH]; intros keys; simpl.
  - by rewrite app_nil_r.
  - rewrite IH. destruct (decide (x ∈ keys)) as [Hin|Hout].
    + rewrite decide_True; [done|]. by apply elem_of_list_to_set.
    + rewrite decide_False by by rewrite elem_of_list_to_set.
      rewrite <- app_assoc. simpl. do 3 f_equal.
      rewrite list_to_set_app_L. simpl.
      by rewrite (right_id_L ∅ (∪)), (comm_L (∪)).
Qed.

Lemma dict_fromkeys_first_seen l : dict_fromkeys l = first_seen ∅ l.
Proof. unfold dict_fromkeys. by rewrite foldl_insert_key. Qed.

Lemma elem_of_first_seen seen l x :
  x ∈ first_seen seen l ↔ x ∈ l ∧ x ∉ seen.
Proof.
  revert seen. induction l as [|y l IH]; intros seen; simpl.
  - split; [by intros ?%not_elem_of_nil|by intros [?%not_elem_of_nil _]].
  - destruct (decide (y ∈ seen)) as [Hin|Hout].
    + rewrite IH, elem_of_cons. naive_solver.
    + rewrite !elem_of_cons, IH, not_elem_of_union, elem_of_singleton.
      destruct (decide (x = y)); naive_solver.
Qed.

Lemma NoDup_first_seen seen l : NoDup (first_seen seen l).
Proof.
  revert seen. induction l as [|y l IH]; intros seen; simpl; [constructor|].
  destruct (decide (y ∈ seen)); [done|]. constructor; [|done].
  rewrite elem_of_first_seen, not_elem_of_union, elem_of_singleton.
  naive_solver.
Qed.

Lemma elem_of_dict_fromkeys l x : x ∈ dict_fromkeys l ↔ x ∈ l.
Proof.
  rewrite dict_fromkeys_first_seen, elem_of_first_seen. set_solver.
Qed.

Lemma NoDup_dict_fromkeys l : NoDup (dict_fromkeys l).
Proof. rewrite dict_fromkeys_first_seen. apply NoDup_first_seen. Qed.

Lemma dict_fromkeys_nil_iff l : dict_fromkeys l = [] ↔ l = [].
Proof.
  split; [|by intros ->].
  destruct l as [|x l]; [done|]. intros Hnil.
  assert (x ∈ dict_fromkeys (x :: l)) as Hin
    by (apply elem_of_dict_fromkeys; by left).
  rewrite Hnil in Hin. by apply not_elem_of_nil in Hin.
Qed.

(** A list without duplicates is left as it is. *)
Lemma first_seen_NoDup seen l :
  NoDup l → (∀ x, x ∈ l → x ∉ seen) → first_seen seen l = l.
Proof.
  revert seen. induction l as [|y l IH]; intros seen Hnd Hfresh; [done|].
  apply NoDup_cons in Hnd as [Hy Hnd]. simpl.
  rewrite decide_False by (apply Hfresh; by left). f_equal.
  apply IH; [done|]. intros x Hx.
  rewrite not_elem_of_union, elem_of_singleton. split.
  - intros ->. contradiction.
  - apply Hfresh. by right.
Qed.

Lemma dict_fromkeys_NoDup l : NoDup l → dict_fromkeys l = l.
Proof.
  intros. rewrite dict_fromkeys_first_seen. apply first_seen_NoDup; set_solver.
Qed.
End dedup.

(** ** Sorting the sets of linking files *)

Lemma elem_of_sorted (value : gset string) (x : string) :
  x ∈ sorted value ↔ x ∈ value.
Proof.
  unfold sorted. rewrite merge_sort_Permutation. apply elem_of_elements.
Qed.

Lemma sorted_nil_iff (value : gset string) : sorted value = [] ↔ value = ∅.
Proof.
  split.
  - intros Hnil. apply set_eq. intros x. rewrite <- elem_of_sorted, Hnil.
    set_solver.
  - intros ->. reflexivity.
Qed.

Lemma sorted_singleton (x : string) : sorted {[x]} = [x].
Proof. unfold sorted. by rewrite elements_singleton. Qed.

(** ** The maps [scan_notes] returns *)

Section returned_maps.
Implicit Types (d : src_dir) (files : list note_file) (t : string).

Lemma existing_files_loop files (acc : gset string) :
  foldl (λ existing_files f, existing_files ∪ {[name f]}) acc files
  = acc ∪ existing_files_of files.
Proof.
  unfold existing_files_of. revert acc.
  induction files as [|f files IH]; intros acc; simpl.
  - by rewrite (right_id_L ∅ (∪)).
  - by rewrite IH, (assoc_L (∪)).
Qed.

Lemma scan_notes_final d :
  scan_notes d = (Scan.stdout (final_state d), returned (final_state d)).
Proof.
  unfold scan_notes, final_state. destruct d as [files|]; [|done].
  by rewrite existing_files_loop, (left_id_L ∅ (∪)).
Qed.

Lemma elem_of_file_links f text t :
  (text, t) ∈ file_links f
  ↔ ∃ content, read f = ReadOk content ∧ (text, t) ∈ extract_links content.
Proof.
  unfold file_links. destruct (read f) as [content|e].
  - split; [by eauto|]. by intros (? & [= <-] & ?).
  - split; [by intros ?%not_elem_of_nil|]. by intros (? & [=] & _).
Qed.

Lemma mentions_texts files text t :
  mentions files text t ↔ text ∈ mention_texts t files.
Proof.
  unfold mentions, mention_texts.
  rewrite elem_of_texts_to, list_elem_of_bind.
  setoid_rewrite elem_of_file_links. naive_solver.
Qed.

Lemma mention_texts_nil_iff files t :
  mention_texts t files = [] ↔ ∀ text, ¬ mentions files text t.
Proof.
  setoid_rewrite mentions_texts. split.
  - intros -> text. apply not_elem_of_nil.
  - intros Hno. destruct (mention_texts t files) as [|x l]; [done|].
    exfalso. apply (Hno x). by left.
Qed.

Lemma elem_of_linkers_to files t fn :
  fn ∈ linkers_to t files
  ↔ ∃ f, f ∈ files ∧ name f = fn ∧ texts_to t (file_links f) ≠ [].
Proof.
  unfold linkers_to. rewrite list_elem_of_fmap.
  setoid_rewrite list_elem_of_filter. naive_solver.
Qed.

Lemma linkers_to_nil_iff files t :
  linkers_to t files = [] ↔ mention_texts t files = [].
Proof.
  unfold linkers_to, mention_texts.
  induction files as [|f files IH]; [done|].
  rewrite filter_cons, bind_cons, texts_to_app.
  destruct (decide (texts_to t (file_links f) ≠ [])) as [Hne|Heq].
  - split; [done|]. by intros [? _]%app_eq_nil.
  - apply dec_stable in Heq. rewrite Heq. simpl. apply IH.
Qed.

Lemma final_all_links d t :
  Scan.all_links (final_state d) !! t
  = dd_extend None (mention_texts t (glob_md d)).
Proof. unfold final_state. by rewrite scan_files_all. Qed.

Lemma final_broken_links d t :
  Scan.broken_links (final_state d) !! t
  = if decide (t ∈ existing_files_of (glob_md d)) then None
    else dd_extend None (mention_texts t (glob_md d)).
Proof. unfold final_state. by rewrite scan_files_broken. Qed.

Lemma final_files_linking_to d t :
  Scan.files_linking_to (final_state d) !! t
  = dd_union None (linkers_to t (glob_md d)).
Proof. unfold final_state. by rewrite scan_files_linking. Qed.

Lemma dd_extend_None_is_Some new : is_Some (dd_extend None new) ↔ new ≠ [].
Proof.
  destruct new; simpl; [|by split; eauto].
  split; [by intros [? [=]]|done].
Qed.

Lemma dd_union_None_is_Some new : is_Some (dd_union None new) ↔ new ≠ [].
Proof.
  destruct new; simpl; [|by split; eauto].
  split; [by intros [? [=]]|done].
Qed.

Lemma elem_of_existing_files files fn :
  fn ∈ existing_files_of files ↔ ∃ f, f ∈ files ∧ name f = fn.
Proof.
  unfold existing_files_of.
  rewrite elem_of_list_to_set, list_elem_of_fmap. naive_solver.
Qed.
End returned_maps.

(** Unfolds the result of [scan_notes d] into the accumulators of
    [final_state d]. *)
Ltac scan_result d :=
  rewrite (scan_notes_final d); unfold returned; cbn [fst snd].

Ltac scan_part d :=
  unfold existing_notes_of, all_links_of, broken_links_of, files_linking_to_of;
  scan_result d.

(** * The claims *)

(** C1. A target that some note mentions and that is not the name of a
    scanned file is a key of [broken_links], and its entry there is the
    entry of [all_links]: the link texts that mention it, in scanning
    order, each kept at its first occurrence only. *)
Theorem broken_target_has_all_link_texts (d : src_dir) (text t : string) :
  mentions (glob_md d) text t →
  t ∉ (name <$> glob_md d) →
  let '(_, all_links, broken_links, _) := (scan_notes d).2 in
  broken_links !! t = all_links !! t
  ∧ all_links !! t = Some (dict_fromkeys (mention_texts t (glob_md d)))
  ∧ NoDup (dict_fromkeys (mention_texts t (glob_md d)))
  ∧ text ∈ dict_fromkeys (mention_texts t (glob_md d)).
Proof.
  intros Hm Hnew. scan_result d.
  rewrite !lookup_fmap, final_all_links, final_broken_links.
  rewrite decide_False
    by (unfold existing_files_of; by rewrite elem_of_list_to_set).
  apply mentions_texts in Hm.
  split_and!; [done| |apply NoDup_dict_fromkeys|by apply elem_of_dict_fromkeys].
  destruct (mention_texts t (glob_md d)); [|done].
  by apply not_elem_of_nil in Hm.
Qed.

Lemma broken_target_has_all_link_texts_witness :
  mentions (glob_md dir_unreadable) "Gamma3" "c.md"
  ∧ ("c.md" ∉ name <$> glob_md dir_unreadable)
  ∧ (let '(_, all_links, broken_links, _) := (scan_notes dir_unreadable).2 in
     broken_links !! "c.md" = all_links !! "c.md"
     ∧ all_links !! "c.md"
       = Some (dict_fromkeys (mention_texts "c.md" (glob_md dir_unreadable)))
     ∧ NoDup (dict_fromkeys (mention_texts "c.md" (glob_md dir_unreadable)))
     ∧ "Gamma3" ∈ dict_fromkeys (mention_texts "c.md" (glob_md dir_unreadable))).
Proof.
  assert (mentions (glob_md dir_unreadable) "Gamma3" "c.md") as Hm.
  { exists (note "B.md" (ReadOk "[Zed](z.md) [Gamma3](c.md)")), "[Zed](z.md) [Gamma3](c.md)".
    split_and!; [|reflexivity|].
    - apply (bool_decide_unpack _). by vm_compute.
    - apply (bool_decide_unpack _). by vm_compute. }
  assert ("c.md" ∉ (name <$> glob_md dir_unreadable)) as Hnew.
  { apply (bool_decide_unpack _). by vm_compute. }
  split_and!; [exact Hm|exact Hnew|].
  exact (broken_target_has_all_link_texts dir_unreadable "Gamma3" "c.md" Hm Hnew).
Defined.

(** C2. The keys of [all_links] are exactly the targets some note
    mentions, whether or not a file of that name exists; every key of
    [broken_links] is a key of [all_links]; and no key of [broken_links]
    is the file name recorded for a title in [existing_notes]. *)
Theorem link_map_keys (d : src_dir) :
  let '(existing_notes, all_links, broken_links, _) := (scan_notes d).2 in
  (∀ t, t ∈ dom all_links ↔ ∃ text, mentions (glob_md d) text t)
  ∧ dom broken_links ⊆ dom all_links
  ∧ (∀ t title, t ∈ dom broken_links → existing_notes !! title ≠ Some t).
Proof.
  scan_result d. split_and!.
  - intros t.
    rewrite elem_of_dom, lookup_fmap, fmap_is_Some, final_all_links.
    rewrite dd_extend_None_is_Some. setoid_rewrite mentions_texts.
    destruct (mention_texts t (glob_md d)) as [|x l].
    + split; [done|]. by intros [? ?%not_elem_of_nil].
    + split; [|done]. intros _. exists x. by left.
  - intros t.
    rewrite !elem_of_dom, !lookup_fmap, !fmap_is_Some.
    rewrite final_all_links, final_broken_links.
    destruct (decide _); [|done]. by intros [? [=]].
  - intros t title.
    rewrite elem_of_dom, lookup_fmap, fmap_is_Some, final_broken_links.
    destruct (decide (t ∈ existing_files_of (glob_md d))) as [|Hout];
      [by intros [? [=]]|].
    intros _ Htitle. apply Hout.
    apply scan_files_titles in Htitle as [Hinit|(f & c & Hin & Hname & _)].
    + simpl in Hinit. by rewrite lookup_empty in Hinit.
    + apply elem_of_existing_files. eauto.
Qed.

(** C9. [all_links] and [files_linking_to] have the same keys, and no
    entry of either is an empty list. *)
Theorem all_links_and_linking_files_agree (d : src_dir) :
  let '(_, all_links, _, files_linking_to) := (scan_notes d).2 in
  dom all_links = dom files_linking_to
  ∧ (∀ t texts, all_links !! t = Some texts → texts ≠ [])
  ∧ (∀ t sources, files_linking_to !! t = Some sources → sources ≠ []).
Proof.
  scan_result d. split_and!.
  - apply set_eq. intros t.
    rewrite !elem_of_dom, !lookup_fmap, !fmap_is_Some.
    rewrite final_all_links, final_files_linking_to.
    rewrite dd_extend_None_is_Some, dd_union_None_is_Some.
    by rewrite linkers_to_nil_iff.
  - intros t texts. rewrite lookup_fmap, final_all_links.
    destruct (mention_texts t (glob_md d)) as [|x l] eqn:E; [done|].
    simpl. intros [= <-]. by rewrite dict_fromkeys_nil_iff.
  - intros t sources. rewrite lookup_fmap, final_files_linking_to.
    destruct (linkers_to t (glob_md d)) as [|x l] eqn:E; [done|].
    simpl. intros [= <-]. rewrite sorted_nil_iff. set_solver.
Qed.

(** ** Entries that cannot be read *)

Section unreadable.
Variable existing_files : gset string.
Implicit Types (st : Scan.state) (f : note_file) (files : list note_file).

Lemma same_maps_print line st : same_maps (Scan.print line st) st.
Proof. by repeat split. Qed.

Lemma same_maps_add_link fn st1 st2 link :
  same_maps st1 st2 →
  same_maps (Scan.add_link existing_files fn st1 link)
            (Scan.add_link existing_files fn st2 link).
Proof.
  intros (Hen & Hal & Hbl & Hfl). destruct link as [text target].
  unfold same_maps. simpl. by rewrite Hen, Hal, Hbl, Hfl.
Qed.

Lemma same_maps_add_links fn links st1 st2 :
  same_maps st1 st2 →
  same_maps (foldl (Scan.add_link existing_files fn) st1 links)
            (foldl (Scan.add_link existing_files fn) st2 links).
Proof.
  revert st1 st2. induction links as [|link links IH]; intros st1 st2 H; [done|].
  simpl. by apply IH, same_maps_add_link.
Qed.

Lemma same_maps_scan_file f st1 st2 :
  same_maps st1 st2 →
  same_maps (Scan.scan_file existing_files st1 f)
            (Scan.scan_file existing_files st2 f).
Proof.
  intros H. unfold Scan.scan_file. destruct (read f) as [content|e].
  - apply same_maps_add_links. destruct (decide _); [done|].
    destruct H as (Hen & Hal & Hbl & Hfl).
    unfold same_maps. simpl. by rewrite Hen, Hal, Hbl, Hfl.
  - destruct H as (Hen & Hal & Hbl & Hfl). by repeat split.
Qed.

Lemma same_maps_scan_files files st1 st2 :
  same_maps st1 st2 →
  same_maps (Scan.scan_files existing_files files st1)
            (Scan.scan_files existing_files files st2).
Proof.
  revert st1 st2. induction files as [|f files IH]; intros st1 st2 H; [done|].
  apply IH, same_maps_scan_file, H.
Qed.

Lemma same_maps_returned st1 st2 : same_maps st1 st2 → returned st1 = returned st2.
Proof.
  intros (Hen & Hal & Hbl & Hfl). unfold returned. by rewrite Hen, Hal, Hbl, Hfl.
Qed.

(** A failed read changes none of the four accumulators. *)
Lemma scan_file_unreadable st f e :
  read f = ReadError e →
  Scan.scan_file existing_files st f
  = Scan.print (Scan.read_error_message (file_path f) e) st.
Proof. intros Hread. unfold Scan.scan_file. by rewrite Hread. Qed.

(** Neither does an empty note. *)
Lemma scan_file_emptied st f :
  Scan.scan_file existing_files st (emptied f) = st.
Proof. reflexivity. Qed.

Lemma scan_files_skip files1 files2 f e st :
  read f = ReadError e →
  same_maps (Scan.scan_files existing_files (files1 ++ f :: files2) st)
            (Scan.scan_files existing_files (files1 ++ files2) st).
Proof.
  intros Hread. rewrite !scan_files_app.
  change (Scan.scan_files existing_files (f :: files2) ?s)
    with (Scan.scan_files existing_files files2
            (Scan.scan_file existing_files s f)).
  apply same_maps_scan_files.
  rewrite (scan_file_unreadable _ _ e Hread). apply same_maps_print.
Qed.

Lemma scan_files_emptied files1 files2 f st :
  Scan.scan_files existing_files (files1 ++ emptied f :: files2) st
  = Scan.scan_files existing_files (files1 ++ files2) st.
Proof. by rewrite !scan_files_app. Qed.

Lemma scan_file_stdout st f :
  Scan.stdout (Scan.scan_file existing_files st f)
  = Scan.stdout st ++ read_errors [f].
Proof.
  unfold Scan.scan_file, read_errors. rewrite bind_cons. simpl.
  destruct (read f) as [content|e]; simpl; [|done].
  rewrite add_links_stdout, app_nil_r. by destruct (decide _).
Qed.

Lemma read_errors_cons f files :
  read_errors (f :: files) = read_errors [f] ++ read_errors files.
Proof. unfold read_errors. rewrite !bind_cons. simpl. by rewrite app_nil_r. Qed.

Lemma scan_files_stdout files st :
  Scan.stdout (Scan.scan_files existing_files files st)
  = Scan.stdout st ++ read_errors files.
Proof.
  revert st. induction files as [|f files IH]; intros st.
  { simpl. by rewrite app_nil_r. }
  change (Scan.scan_files existing_files (f :: files) st)
    with (Scan.scan_files existing_files files
            (Scan.scan_file existing_files st f)).
  rewrite IH, scan_file_stdout, (read_errors_cons f files). by rewrite <- app_assoc.
Qed.
End unreadable.

Lemma existing_files_of_emptied files1 files2 f :
  existing_files_of (files1 ++ emptied f :: files2)
  = existing_files_of (files1 ++ f :: files2).
Proof. unfold existing_files_of. by rewrite !fmap_app, !fmap_cons. Qed.

(** In a listing without repeated names an entry is known by its name. *)
Lemma NoDup_names_eq (files : list note_file) (f g : note_file) :
  NoDup (name <$> files) → f ∈ files → g ∈ files → name f = name g → f = g.
Proof.
  induction files as [|h files IH]; [by intros _ ?%not_elem_of_nil|].
  rewrite fmap_cons, NoDup_cons, !elem_of_cons.
  intros [Hh Hnd] [->|Hf] [->|Hg] Hname; [done| | |by apply IH].
  - exfalso. apply Hh. rewrite Hname. by apply list_elem_of_fmap_2.
  - exfalso. apply Hh. rewrite <- Hname. by apply list_elem_of_fmap_2.
Qed.

(** C7. When an entry cannot be read the scan goes on: the failure is
    printed, and the four maps are those of the same listing with that
    entry left out of the loop over the contents, or read as an empty
    note, wherever the entry stands in the listing and whatever the other
    entries are. *)
Theorem unreadable_file_is_skipped
    (files1 files2 : list note_file) (f : note_file) (e : string) :
  read f = ReadError e →
  let files := files1 ++ f :: files2 in
  (scan_notes (Some files)).1
    = read_errors files1
      ++ Scan.read_error_message (file_path f) e :: read_errors files2
  ∧ (scan_notes (Some files)).2
    = returned (Scan.scan_files (existing_files_of files) (files1 ++ files2)
                  Scan.init)
  ∧ (scan_notes (Some files)).2
    = (scan_notes (Some (files1 ++ emptied f :: files2))).2.
Proof.
  intros Hread files. subst files. rewrite !scan_notes_final. cbn [fst snd].
  unfold final_state. cbn [glob_md default from_option id].
  split_and!.
  - rewrite scan_files_stdout. simpl. unfold read_errors.
    rewrite bind_app, bind_cons, Hread. reflexivity.
  - apply same_maps_returned. by apply (scan_files_skip _ _ _ _ e).
  - rewrite existing_files_of_emptied, scan_files_emptied.
    apply same_maps_returned. by apply (scan_files_skip _ _ _ _ e).
Qed.

Lemma unreadable_file_is_skipped_witness :
  let f := note "z.md" (ReadError "Permission denied") in
  let files1 := [note "A.md" (ReadOk "[Gamma](c.md) [Gamma](c.md) [me](A.md)")] in
  let files2 := [note "B.md" (ReadOk "[Zed](z.md) [Gamma3](c.md)")] in
  read f = ReadError "Permission denied"
  ∧ (scan_notes (Some (files1 ++ f :: files2))).1
    = read_errors files1
      ++ Scan.read_error_message (file_path f) "Permission denied"
         :: read_errors files2
  ∧ (scan_notes (Some (files1 ++ f :: files2))).2
    = returned (Scan.scan_files (existing_files_of (files1 ++ f :: files2))
                  (files1 ++ files2) Scan.init)
  ∧ (scan_notes (Some (files1 ++ f :: files2))).2
    = (scan_notes (Some (files1 ++ emptied f :: files2))).2.
Proof.
  intros f files1 files2. split; [reflexivity|].
  exact (unreadable_file_is_skipped files1 files2 f "Permission denied" eq_refl).
Defined.

(** C10. An entry of the listing that cannot be read is still an existing
    file: its name is never a key of [broken_links], while links to it are
    kept in [all_links]. The entry itself gives no title and no links: in a
    listing without repeated names, its name is no value of
    [existing_notes] and occurs in no list of [files_linking_to]. *)
Theorem unreadable_file_still_exists (d : src_dir) (f : note_file) (e : string) :
  f ∈ glob_md d →
  read f = ReadError e →
  let '(existing_notes, all_links, broken_links, files_linking_to) :=
    (scan_notes d).2 in
  broken_links !! name f = None
  ∧ (∀ text, mentions (glob_md d) text (name f) →
       ∃ texts, all_links !! name f = Some texts ∧ text ∈ texts)
  ∧ (NoDup (name <$> glob_md d) →
       (∀ title, existing_notes !! title ≠ Some (name f))
       ∧ (∀ t sources, files_linking_to !! t = Some sources → name f ∉ sources)).
Proof.
  intros Hin Hread. scan_result d. split_and!.
  - rewrite lookup_fmap, final_broken_links.
    rewrite decide_True; [done|]. apply elem_of_existing_files. eauto.
  - intros text Hm%mentions_texts.
    rewrite lookup_fmap, final_all_links.
    destruct (mention_texts (name f) (glob_md d)) as [|x l] eqn:E.
    { by apply not_elem_of_nil in Hm. }
    simpl. eexists. split; [done|]. by apply elem_of_dict_fromkeys.
  - intros Hnd. split.
    + intros title Htitle.
      apply scan_files_titles in Htitle as [Hinit|(g & c & Hg & Hname & Hc & _)].
      { simpl in Hinit. by rewrite lookup_empty in Hinit. }
      rewrite (NoDup_names_eq _ g f Hnd Hg Hin Hname) in Hc. congruence.
    + intros t sources. rewrite lookup_fmap, final_files_linking_to.
      destruct (linkers_to t (glob_md d)) as [|x l] eqn:E; [done|].
      simpl. intros [= <-] Hsrc. apply elem_of_sorted in Hsrc.
      rewrite (left_id_L ∅ (∪)) in Hsrc.
      change ({[x]} ∪ list_to_set l) with (list_to_set (C:=gset string) (x :: l)) in Hsrc.
      rewrite <- E in Hsrc.
      apply elem_of_list_to_set, elem_of_linkers_to in Hsrc
        as (g & Hg & Hname & Hlinks).
      rewrite (NoDup_names_eq _ g f Hnd Hg Hin Hname) in Hlinks.
      apply Hlinks. unfold file_links. by rewrite Hread.
Qed.

Lemma unreadable_file_still_exists_witness :
  let f := note "z.md" (ReadError "Permission denied") in
  f ∈ glob_md dir_unreadable
  ∧ read f = ReadError "Permission denied"
  ∧ (let '(existing_notes, all_links, broken_links, files_linking_to) :=
       (scan_notes dir_unreadable).2 in
     broken_links !! name f = None
     ∧ (∀ text, mentions (glob_md dir_unreadable) text (name f) →
          ∃ texts, all_links !! name f = Some texts ∧ text ∈ texts)
     ∧ (NoDup (name <$> glob_md dir_unreadable) →
          (∀ title, existing_notes !! title ≠ Some (name f))
          ∧ (∀ t sources,
               files_linking_to !! t = Some sources → name f ∉ sources))).
Proof.
  intros f.
  assert (f ∈ glob_md dir_unreadable) as Hin.
  { apply (bool_decide_unpack _). by vm_compute. }
  split_and!; [exact Hin|reflexivity|].
  exact (unreadable_file_still_exists dir_unreadable f "Permission denied"
           Hin eq_refl).
Defined.

(** C8. Without the note directory the scan prints nothing and returns
    four empty maps, and the four statistics of the mapping are zero. *)
Theorem missing_directory_gives_empty_graph :
  scan_notes None = ([], (∅, ∅, ∅, ∅))
  ∧ statistics (main_json_mapping None)
    = {| total_existing_notes := 0; total_linked_files := 0;
         total_broken_links := 0; total_broken_link_mentions := 0 |}.
Proof. split; reflexivity. Qed.

(** C3. In every mapping [generate_json_mapping] builds, the stored
    [total_broken_links] and [total_broken_link_mentions] are the number
    of keys of its [broken_links] and the sum of the lengths of its
    values, so a reader that derives the two totals from [broken_links]
    finds the stored ones. In the mapping built from a scan these values
    hold no duplicates, so the lengths are those after deduplication. *)
Theorem statistics_match_broken_links
    (notes : gmap string string)
    (links broken linking : gmap string (list string))
    (d : src_dir) :
  (let m := generate_json_mapping notes links broken linking in
   total_broken_links (statistics m) = size (broken_links m)
   ∧ total_broken_link_mentions (statistics m)
     = sum_list (length <$> values (broken_links m))
   ∧ derived_totals (broken_links m)
     = (total_broken_links (statistics m),
        total_broken_link_mentions (statistics m)))
  ∧ (let m := main_json_mapping d in
     derived_totals (broken_links m)
     = (total_broken_links (statistics m),
        total_broken_link_mentions (statistics m))
     ∧ ∀ t texts, broken_links m !! t = Some texts → NoDup texts).
Proof.
  split; [by split_and!|].
  unfold main_json_mapping. scan_result d. split; [done|].
  intros t texts. simpl. rewrite lookup_fmap.
  destruct (Scan.broken_links (final_state d) !! t); [|done].
  intros [= <-]. apply NoDup_dict_fromkeys.
Qed.

(** ** Searching and cutting text *)

Section text.
Implicit Types (s p sep a b : string) (c : ascii).

Lemma append_nil s : "" +:+ s = s.
Proof. reflexivity. Qed.

Lemma append_cons c a s : String c a +:+ s = String c (a +:+ s).
Proof. reflexivity. Qed.

Lemma startswith_app p s : startswith p (p +:+ s) = true.
Proof.
  induction p as [|c p IH]; [done|].
  rewrite append_cons. simpl. by rewrite decide_True.
Qed.

Lemma startswith_drop p s :
  startswith p s = true → s = p +:+ drop (String.length p) s.
Proof.
  revert s. induction p as [|c p IH]; intros s; [done|].
  destruct s as [|c' s]; [done|]. simpl.
  destruct (decide (c = c')) as [->|]; [|done].
  intros Hp. rewrite append_cons. f_equal. by apply IH.
Qed.

Lemma drop_app p s : drop (String.length p) (p +:+ s) = s.
Proof. induction p as [|c p IH]; [done|]. by rewrite append_cons. Qed.

(** [cut] splits at an occurrence of the separator... *)
Lemma cut_Some sep s a b : cut sep s = Some (a, b) → s = a +:+ sep +:+ b.
Proof.
  revert a b. induction s as [|c s IH]; intros a b.
  - destruct sep as [|c' sep]; [|done]. simpl. by intros [= <- <-].
  - simpl. destruct (startswith sep (String c s)) eqn:Hp.
    + intros [= <- <-]. rewrite append_nil. by apply startswith_drop.
    + destruct (cut sep s) as [[a' b']|] eqn:Hcut; [|done].
      intros [= <- <-]. rewrite append_cons. f_equal. by apply IH.
Qed.

Lemma cut_prefix sep s : cut sep (sep +:+ s) = Some ("", s).
Proof.
  destruct (sep +:+ s) eqn:E; simpl; rewrite <- E;
    by rewrite startswith_app, drop_app.
Qed.

(** ... and finds one wherever there is one. *)
Lemma cut_is_Some sep a b : is_Some (cut sep (a +:+ sep +:+ b)).
Proof.
  induction a as [|c a IH].
  - rewrite append_nil, cut_prefix. by eexists.
  - rewrite append_cons. simpl.
    destruct (startswith sep _); [by eexists|].
    destruct IH as [[a' b'] ->]. by eexists.
Qed.

Lemma contains_true_iff sep s :
  contains sep s = true ↔ ∃ a b, s = a +:+ sep +:+ b.
Proof.
  unfold contains. split.
  - destruct (cut sep s) as [[a b]|] eqn:Hcut; [|done].
    intros _. exists a, b. by apply cut_Some.
  - intros (a & b & ->). by destruct (cut_is_Some sep a b) as [? ->].
Qed.

Lemma split_max_S sep n s :
  split_max sep (S n) s
  = match cut sep s with
    | None => [s]
    | Some (a, b) => a :: split_max sep n b
    end.
Proof. reflexivity. Qed.

Lemma length_app a b :
  String.length (a +:+ b) = String.length a + String.length b.
Proof. induction a as [|c a IH]; [done|]. rewrite append_cons. simpl. lia. Qed.

Lemma cut_shorter sep s a b :
  sep ≠ "" → cut sep s = Some (a, b) → String.length b < String.length s.
Proof.
  intros Hsep ->%cut_Some. rewrite !length_app.
  destruct sep; [done|]. simpl. lia.
Qed.

(** [split] cuts as often as the separator occurs: more fuel than the
    length of the text changes nothing. *)
Lemma split_max_enough sep n s :
  sep ≠ "" → String.length s ≤ n → split_max sep n s = split sep s.
Proof.
  intros Hsep. unfold split.
  assert (∀ n m s, String.length s ≤ n → String.length s ≤ m →
                   split_max sep n s = split_max sep m s) as Hfuel.
  { clear n s. induction n as [|n IH]; intros m s Hn Hm.
    - destruct s; [|simpl in Hn; lia].
      destruct m; [done|]. rewrite split_max_S.
      by destruct sep.
    - destruct m as [|m].
      { destruct s; [|simpl in Hm; lia]. rewrite split_max_S. by destruct sep. }
      rewrite !split_max_S.
      destruct (cut sep s) as [[a b]|] eqn:Hcut; [|done].
      apply (cut_shorter _ _ _ _ Hsep) in Hcut.
      f_equal. apply IH; lia. }
  intros Hn. by apply Hfuel.
Qed.

Lemma contains_false_cut sep s : contains sep s = false → cut sep s = None.
Proof. unfold contains. by destruct (cut sep s). Qed.

(** The first occurrence of a one-character separator. *)
Lemma cut_chr_first c key value :
  contains (chr c) key = false →
  cut (chr c) (key +:+ chr c +:+ value) = Some (key, value).
Proof.
  induction key as [|c' key IH]; intros Hkey.
  - rewrite append_nil. unfold chr. rewrite append_cons, append_nil.
    simpl. by rewrite decide_True.
  - rewrite append_cons.
    unfold contains in Hkey. simpl in Hkey. simpl.
    destruct (decide (c = c')) as [->|Hne]; [done|].
    rewrite IH; [done|]. unfold contains.
    by destruct (cut (chr c) key) as [[??]|].
Qed.
End text.

(** ** Front matter *)

Section frontmatter.
Implicit Types (fm : gmap string string) (line key value : string).

Lemma frontmatter_line_sets fm key value :
  contains ":" key = false →
  frontmatter_line fm (key +:+ ":" +:+ value)
  = <[strip key := unquoted value]> fm.
Proof.
  intros Hkey. pose proof (cut_chr_first ":" key value Hkey) as Hcut.
  unfold chr in Hcut. unfold frontmatter_line, contains.
  simpl split_max. by rewrite Hcut.
Qed.

Lemma frontmatter_line_other fm line k :
  (∀ key value, cut ":" line = Some (key, value) → strip key ≠ k) →
  frontmatter_line fm line !! k = fm !! k.
Proof.
  intros Hother. unfold frontmatter_line, contains. simpl split_max.
  destruct (cut ":" line) as [[key value]|] eqn:Hcut; [|done].
  rewrite lookup_insert_ne; [done|]. by apply (Hother key value).
Qed.

Lemma frontmatter_lines_other fm (lines : list string) k :
  (∀ line key value,
     line ∈ lines → cut ":" line = Some (key, value) → strip key ≠ k) →
  foldl frontmatter_line fm lines !! k = fm !! k.
Proof.
  revert fm. induction lines as [|line lines IH]; intros fm Hother; [done|].
  simpl. rewrite IH.
  - apply frontmatter_line_other. intros key value. apply Hother. by left.
  - intros line' key value Hin. apply Hother. by right.
Qed.

(** The front matter is what stands between the opening delimiter and the
    next one. *)
Lemma extract_yaml_frontmatter_closed yaml rest :
  cut "---" (yaml +:+ "---" +:+ rest) = Some (yaml, rest) →
  extract_yaml_frontmatter ("---" +:+ yaml +:+ "---" +:+ rest)
  = foldl frontmatter_line ∅ (split (chr LF) (strip yaml)).
Proof.
  intros Hcut. unfold extract_yaml_frontmatter.
  rewrite startswith_app, split_max_S, cut_prefix. cbn beta iota.
  by rewrite split_max_S, Hcut.
Qed.

Lemma extract_yaml_frontmatter_unclosed body :
  contains "---" body = false →
  extract_yaml_frontmatter ("---" +:+ body) = ∅.
Proof.
  intros Hcut%contains_false_cut. unfold extract_yaml_frontmatter.
  rewrite startswith_app, split_max_S, cut_prefix. cbn beta iota.
  by rewrite split_max_S, Hcut.
Qed.
End frontmatter.

(** Every link of a readable entry is recorded. *)
Lemma link_recorded (d : src_dir) (f : note_file) (content text t : string) :
  f ∈ glob_md d →
  read f = ReadOk content →
  (text, t) ∈ extract_links content →
  recorded (existing_files_of (glob_md d)) (scan_notes d).2 f text t.
Proof.
  intros Hin Hread Hlink. unfold recorded. scan_result d.
  assert (text ∈ mention_texts t (glob_md d)) as Htext.
  { apply mentions_texts. exists f, content. eauto. }
  assert (name f ∈ linkers_to t (glob_md d)) as Hsrc.
  { apply elem_of_linkers_to. exists f. split_and!; [done..|].
    unfold file_links. rewrite Hread. intros Hnil.
    apply elem_of_texts_to in Hlink. rewrite Hnil in Hlink.
    by apply not_elem_of_nil in Hlink. }
  rewrite !lookup_fmap, final_all_links, final_broken_links,
    final_files_linking_to.
  split_and!.
  - destruct (mention_texts t (glob_md d)) as [|x l] eqn:E.
    { by apply not_elem_of_nil in Htext. }
    simpl. eexists. split; [done|]. by apply elem_of_dict_fromkeys.
  - destruct (linkers_to t (glob_md d)) as [|x l] eqn:E.
    { by apply not_elem_of_nil in Hsrc. }
    simpl. eexists. split; [done|]. apply elem_of_sorted.
    rewrite (left_id_L ∅ (∪)).
    change ({[x]} ∪ list_to_set l) with (list_to_set (C:=gset string) (x :: l)).
    by apply elem_of_list_to_set.
  - by destruct (decide _).
Qed.

(** C5 (as amended). When the front matter has a line [key: value] whose
    key is [title] up to surrounding white space, and no later line of
    the front matter has that key, the title of the note is the value
    with surrounding white space trimmed, then every leading and trailing
    double quote removed, then every leading and trailing single quote
    removed. *)
Theorem title_of_front_matter
    (yaml rest key value : string) (before after : list string) :
  cut "---" (yaml +:+ "---" +:+ rest) = Some (yaml, rest) →
  split (chr LF) (strip yaml) = before ++ (key +:+ ":" +:+ value) :: after →
  contains ":" key = false →
  strip key = "title" →
  (∀ line k v, line ∈ after → cut ":" line = Some (k, v) → strip k ≠ "title") →
  Scan.title_of ("---" +:+ yaml +:+ "---" +:+ rest)
  = strip_chars (chr SQUOTE) (strip_chars (chr DQUOTE) (strip value)).
Proof.
  intros Hclosed Hlines Hkey Htitle Hafter. unfold Scan.title_of.
  rewrite (extract_yaml_frontmatter_closed _ _ Hclosed), Hlines.
  rewrite foldl_app. simpl.
  rewrite (frontmatter_lines_other _ _ _ Hafter).
  rewrite (frontmatter_line_sets _ _ _ Hkey), Htitle.
  by rewrite lookup_insert_eq.
Qed.

Lemma title_of_front_matter_witness :
  let key := " title " in
  let value := " " +:+ DQ +:+ "'Привет'" +:+ DQ +:+ " " in
  let rest := lines [""; "[Beta](b.md)"] in
  cut "---" (greeting_yaml +:+ "---" +:+ rest) = Some (greeting_yaml, rest)
  ∧ split (chr LF) (strip greeting_yaml)
    = ["author: me"] ++ (key +:+ ":" +:+ value) :: ["tags: a, b"]
  ∧ contains ":" key = false
  ∧ strip key = "title"
  ∧ Scan.title_of greeting_note = "Привет".
Proof.
  intros key value rest.
  assert (∀ line k v, line ∈ ["tags: a, b"] → cut ":" line = Some (k, v) →
                      strip k ≠ "title") as Hafter.
  { intros line k v ->%list_elem_of_singleton [= <- _]. by vm_compute. }
  split_and!; [by vm_compute..|].
  exact (title_of_front_matter greeting_yaml rest key value
           ["author: me"] ["tags: a, b"] eq_refl eq_refl eq_refl eq_refl Hafter).
Defined.

(** C5 as stated fails: of a value quoted twice the script removes both
    layers of quotes, not one. *)
Lemma title_loses_every_quote_layer :
  Scan.title_of twice_quoted_note = "X"
  ∧ one_quote_layer_stripped (strip twice_quoted_value) = DQ +:+ "X" +:+ DQ
  ∧ Scan.title_of twice_quoted_note
    ≠ one_quote_layer_stripped (strip twice_quoted_value).
Proof. by vm_compute. Qed.

(** ** Links *)

Section links.
Implicit Types (s pre post : string) (c : ascii).

Lemma contains_chr_cons c c' s :
  contains (chr c) (String c' s) = false → c ≠ c' ∧ contains (chr c) s = false.
Proof.
  unfold contains. simpl. destruct (decide (c = c')) as [->|Hne]; [done|].
  by destruct (cut (chr c) s) as [[??]|].
Qed.

(** A link starts with an opening bracket. *)
Lemma match_here_link_bracket c s :
  c ≠ "["%char → Re.match_here link_pattern (String c s) = None.
Proof.
  intros Hc. unfold Re.match_here, link_pattern. simpl.
  by rewrite bool_decide_false by done.
Qed.

Lemma finditer_no_bracket pre s :
  contains "[" pre = false →
  Re.finditer link_pattern (pre +:+ s) = Re.finditer link_pattern s.
Proof.
  unfold Re.finditer. induction pre as [|c pre IH]; [done|].
  intros [Hc Hpre]%contains_chr_cons. rewrite append_cons.
  cbn [Re.finditer_from]. rewrite match_here_link_bracket by done.
  by apply IH.
Qed.

Lemma finditer_link_A s :
  Re.finditer link_pattern ("[A](./x.md)" +:+ s)
  = ["A"; "x.md"] :: Re.finditer link_pattern s.
Proof. reflexivity. Qed.

Lemma finditer_link_B s :
  Re.finditer link_pattern ("[B](x.md)" +:+ s)
  = ["B"; "x.md"] :: Re.finditer link_pattern s.
Proof. reflexivity. Qed.

(** The two links of C4, in a text with no other opening bracket before
    the second. *)
Lemma extract_links_A_B pre mid post :
  contains "[" pre = false →
  contains "[" mid = false →
  extract_links (pre +:+ "[A](./x.md)" +:+ mid +:+ "[B](x.md)" +:+ post)
  = ("A", "x.md") :: ("B", "x.md") :: extract_links post.
Proof.
  intros Hpre Hmid. unfold extract_links.
  rewrite (finditer_no_bracket pre _ Hpre), finditer_link_A.
  rewrite (finditer_no_bracket mid _ Hmid), finditer_link_B.
  reflexivity.
Qed.
End links.

Lemma first_seen_all_seen (seen : gset string) (l : list string) :
  (∀ x, x ∈ l → x ∈ seen) → first_seen seen l = [].
Proof.
  induction l as [|x l IH]; intros Hseen; [done|]. simpl.
  rewrite decide_True by (apply Hseen; by left).
  apply IH. intros y Hy. apply Hseen. by right.
Qed.

(** Link texts that come in runs of [a], [b] reduce to [a], [b]. *)
Lemma dict_fromkeys_runs (a b : string) (runs : list (list string)) :
  (∀ run, run ∈ runs → run = [] ∨ run = [a; b]) →
  mjoin runs ≠ [] →
  dict_fromkeys (mjoin runs) = dict_fromkeys [a; b].
Proof.
  intros Hruns Hne.
  assert (∀ x, x ∈ mjoin runs → x = a ∨ x = b) as Helems.
  { intros x (run & Hx & [->| ->]%Hruns)%list_elem_of_join.
    - by apply not_elem_of_nil in Hx.
    - by rewrite !elem_of_cons, elem_of_nil in Hx; naive_solver. }
  induction runs as [|run runs IH]; [done|].
  destruct (Hruns run) as [->| ->]; [by left| |].
  - apply IH; [|done|done]. intros run' ?. apply Hruns. by right.
  - simpl in *. rewrite !dict_fromkeys_first_seen. simpl.
    rewrite decide_False by set_solver.
    assert (∀ x, x ∈ mjoin runs → x = a ∨ x = b) as Hrest.
    { intros x Hx. apply Helems. by do 2 right. }
    destruct (decide (b ∈ {[a]} ∪ (∅ : gset string))) as [Hba|Hba].
    + f_equal. apply first_seen_all_seen.
      intros x [->| ->]%Hrest; set_solver.
    + do 2 f_equal. apply first_seen_all_seen.
      intros x [->| ->]%Hrest; set_solver.
Qed.

Lemma mention_texts_concat (t : string) (files : list note_file) :
  mention_texts t files = mjoin ((λ f, texts_to t (file_links f)) <$> files).
Proof.
  unfold mention_texts. induction files as [|f files IH]; [done|].
  by rewrite bind_cons, texts_to_app, fmap_cons, IH.
Qed.

(** C4. A note in which the links [[A](./x.md)] and [[B](x.md)] follow
    each other is read as linking to [x.md] twice, the [./] being no part
    of the target. When the other links to [x.md] in the directory are
    the same two in the same order, [all_links] has [["A"; "B"]] for
    [x.md], and the name of every note linking to [x.md] is listed for it
    in [files_linking_to]. *)
Theorem two_links_to_one_target
    (d : src_dir) (f : note_file) (pre mid post : string) :
  f ∈ glob_md d →
  read f = ReadOk (pre +:+ "[A](./x.md)" +:+ mid +:+ "[B](x.md)" +:+ post) →
  contains "[" pre = false →
  contains "[" mid = false →
  texts_to "x.md" (extract_links post) = [] →
  (∀ g, g ∈ glob_md d → g ≠ f →
        texts_to "x.md" (file_links g) = []
        ∨ texts_to "x.md" (file_links g) = ["A"; "B"]) →
  let '(_, all_links, _, files_linking_to) := (scan_notes d).2 in
  file_links f = ("A", "x.md") :: ("B", "x.md") :: extract_links post
  ∧ all_links !! "x.md" = Some ["A"; "B"]
  ∧ ∃ sources,
      files_linking_to !! "x.md" = Some sources
      ∧ name f ∈ sources
      ∧ ∀ g, g ∈ glob_md d → texts_to "x.md" (file_links g) ≠ [] →
             name g ∈ sources.
Proof.
  intros Hin Hread Hpre Hmid Hpost Hothers. scan_result d.
  assert (file_links f = ("A", "x.md") :: ("B", "x.md") :: extract_links post)
    as Hlinks.
  { unfold file_links. rewrite Hread. by apply extract_links_A_B. }
  assert (texts_to "x.md" (file_links f) = ["A"; "B"]) as Hf.
  { rewrite Hlinks, !texts_to_cons, Hpost. by rewrite decide_True. }
  assert (∀ g, g ∈ glob_md d → texts_to "x.md" (file_links g) ≠ [] →
               name g ∈ linkers_to "x.md" (glob_md d)) as Hsrc.
  { intros g Hg Hne. apply elem_of_linkers_to. eauto. }
  rewrite !lookup_fmap, final_all_links, final_files_linking_to.
  split_and!; [done| |].
  - assert ("A" ∈ mention_texts "x.md" (glob_md d)) as HA.
    { apply elem_of_texts_to, list_elem_of_bind. exists f. split; [|done].
      rewrite Hlinks. by left. }
    destruct (mention_texts "x.md" (glob_md d)) as [|x l] eqn:E.
    { by apply not_elem_of_nil in HA. }
    simpl. f_equal. rewrite <- E, mention_texts_concat.
    rewrite (dict_fromkeys_runs "A" "B"); [by vm_compute| |].
    + intros run (g & -> & Hg)%list_elem_of_fmap.
      destruct (decide (g = f)) as [->|Hne]; [by right|]. by apply Hothers.
    + rewrite <- mention_texts_concat, E. done.
  - assert (name f ∈ linkers_to "x.md" (glob_md d)) as Hfsrc.
    { apply Hsrc; [done|]. by rewrite Hf. }
    destruct (linkers_to "x.md" (glob_md d)) as [|x l] eqn:E.
    { by apply not_elem_of_nil in Hfsrc. }
    simpl. eexists. split; [done|].
    assert (∀ n, n ∈ x :: l → n ∈ sorted (∅ ∪ ({[x]} ∪ list_to_set l))) as Hsorted.
    { intros n Hn. apply elem_of_sorted. rewrite (left_id_L ∅ (∪)).
      change ({[x]} ∪ list_to_set l) with (list_to_set (C:=gset string) (x :: l)).
      by apply elem_of_list_to_set. }
    split; [by apply Hsorted|]. intros g Hg Hne. by apply Hsorted, Hsrc.
Qed.

Lemma two_links_to_one_target_witness :
  let f := note "one.md"
             (ReadOk "see [A](./x.md), then [B](x.md) and [C](y.md)") in
  let pre := "see " in
  let mid := ", then " in
  let post := " and [C](y.md)" in
  f ∈ glob_md dir_two_links
  ∧ read f = ReadOk (pre +:+ "[A](./x.md)" +:+ mid +:+ "[B](x.md)" +:+ post)
  ∧ contains "[" pre = false
  ∧ contains "[" mid = false
  ∧ texts_to "x.md" (extract_links post) = []
  ∧ (let '(_, all_links, _, files_linking_to) := (scan_notes dir_two_links).2 in
     file_links f = ("A", "x.md") :: ("B", "x.md") :: extract_links post
     ∧ all_links !! "x.md" = Some ["A"; "B"]
     ∧ ∃ sources,
         files_linking_to !! "x.md" = Some sources
         ∧ name f ∈ sources
         ∧ ∀ g, g ∈ glob_md dir_two_links →
                texts_to "x.md" (file_links g) ≠ [] → name g ∈ sources).
Proof.
  intros f pre mid post.
  assert (f ∈ glob_md dir_two_links) as Hin by by left.
  assert (∀ g, g ∈ glob_md dir_two_links → g ≠ f →
               texts_to "x.md" (file_links g) = []
               ∨ texts_to "x.md" (file_links g) = ["A"; "B"]) as Hothers.
  { intros g Hg _. simpl in Hg.
    rewrite !elem_of_cons, elem_of_nil in Hg.
    destruct Hg as [->|[->|[->|[]]]]; vm_compute; auto. }
  split; [exact Hin|]. do 4 (split; [reflexivity|]).
  exact (two_links_to_one_target dir_two_links f pre mid post
           Hin eq_refl eq_refl eq_refl eq_refl Hothers).
Defined.

(** The two scenarios of the description. *)
Example scenario_alpha_beta :
  (scan_notes dir_alpha_beta).2
  = ({["Alpha" := "A.md"; "Beta" := "b.md"]},
     {["b.md" := ["Beta"]]}, ∅, {["b.md" := ["A.md"]]}).
Proof. by vm_compute. Qed.

Example scenario_gamma :
  let m := main_json_mapping dir_gamma in
  broken_links m = {["c.md" := ["Gamma"; "Gamma2"]]}
  ∧ total_broken_link_mentions (statistics m) = 2.
Proof. by vm_compute. Qed.

(** * Further properties of the code *)

(** ** What a match of the link pattern looks like *)

Section pattern.
Context {R : Type}.
Implicit Types (s a b : string) (cl : Re.cclass) (r : R).

Lemma take_app_length a b : take (String.length a) (a +:+ b) = a.
Proof. induction a as [|c a IH]; [by destruct b|]. simpl. by rewrite IH. Qed.

Lemma app_assoc_string a b s : (a +:+ b) +:+ s = a +:+ b +:+ s.
Proof. induction a as [|c a IH]; [done|]. by rewrite !append_cons, IH. Qed.

(** A successful [cl+] has consumed a non-empty run of the class. *)
Lemma plus_loop_Some cl s pos (k : string → nat → option R) r :
  Re.plus_loop cl s pos k = Some r →
  ∃ a b, s = a +:+ b ∧ a ≠ "" ∧ chars_all (Re.accepts cl) a = true
         ∧ k b (pos + String.length a) = Some r.
Proof.
  revert pos. induction s as [|c s IH]; intros pos; [done|]. simpl.
  destruct (Re.accepts cl c) eqn:Hc; [|done].
  destruct (Re.plus_loop cl s (S pos) k) as [r'|] eqn:Hloop.
  - intros [= ->]. destruct (IH _ Hloop) as (a & b & -> & _ & Ha & Hk).
    exists (String c a), b. split_and!; [done|done| |].
    + simpl. by rewrite Hc, Ha.
    + simpl. by rewrite <- Nat.add_succ_comm.
  - intros Hk. exists (String c ""), s. split_and!; [done|done| |].
    + simpl. by rewrite Hc.
    + simpl. by rewrite Nat.add_1_r.
Qed.

Lemma rmatch_lit c rest s pos caps (k : string → nat → list string → option R) r :
  Re.rmatch (Re.Cat (Re.lit c) rest) s pos caps k = Some r →
  ∃ s', s = String c s' ∧ Re.rmatch rest s' (S pos) caps k = Some r.
Proof.
  simpl. destruct s as [|c' s']; [done|]. simpl.
  destruct (bool_decide (c' = c)) eqn:Hc; [|done].
  apply bool_decide_eq_true in Hc as ->. eauto.
Qed.

Lemma rmatch_opt_lit c rest s pos caps (k : string → nat → list string → option R) r :
  Re.rmatch (Re.Cat (Re.Opt (Re.lit c)) rest) s pos caps k = Some r →
  ∃ s' pos', Re.rmatch rest s' pos' caps k = Some r.
Proof.
  simpl. destruct s as [|c' s']; simpl; [by eauto|].
  destruct (bool_decide (c' = c)); [|by eauto].
  destruct (Re.rmatch rest s' (S pos) caps k) eqn:E; [|by eauto].
  intros [= ->]. eauto.
Qed.
Lemma rmatch_group_plus cl rest s pos caps
    (k : string → nat → list string → option R) r :
  Re.rmatch (Re.Cat (Re.Group (Re.Plus cl)) rest) s pos caps k = Some r →
  ∃ a b, s = a +:+ b ∧ a ≠ "" ∧ chars_all (Re.accepts cl) a = true
         ∧ Re.rmatch rest b (pos + String.length a) (caps ++ [a]) k = Some r.
Proof.
  cbn [Re.rmatch]. intros (a & b & -> & Ha & Hall & H)%plus_loop_Some.
  exists a, b. split_and!; [done..|].
  replace (pos + String.length a - pos) with (String.length a) in H by lia.
  by rewrite take_app_length in H.
Qed.

Lemma rmatch_group_plus_lits cl c1 c2 c3 rest s pos caps
    (k : string → nat → list string → option R) r :
  Re.rmatch
    (Re.Cat (Re.Group (Re.seq [Re.Plus cl; Re.lit c1; Re.lit c2; Re.lit c3]))
       rest) s pos caps k = Some r →
  ∃ a b pos',
    let suffix := String c1 (String c2 (String c3 "")) in
    s = a +:+ suffix +:+ b ∧ a ≠ "" ∧ chars_all (Re.accepts cl) a = true
    ∧ Re.rmatch rest b pos' (caps ++ [a +:+ suffix]) k = Some r.
Proof.
  unfold Re.seq. cbn [foldr Re.rmatch].
  intros (a & b & -> & Ha & Hall & H)%plus_loop_Some.
  destruct b as [|d1 [|d2 [|d3 b]]]; simpl in H; try done;
    repeat (case_bool_decide; try done).
  subst. exists a, b. eexists. split_and!; [done..|].
  replace (S (S (S (pos + String.length a))) - pos)
    with (String.length (a +:+ String c1 (String c2 (String c3 ""))))
    in H by (rewrite length_app; simpl; lia).
  change (a +:+ String c1 (String c2 (String c3 b)))
    with (a +:+ String c1 (String c2 (String c3 "")) +:+ b) in H.
  rewrite <- app_assoc_string, take_app_length in H. exact H.
Qed.
End pattern.

Lemma chars_all_except c a :
  chars_all (Re.accepts (Re.Except c)) a = true → contains (chr c) a = false.
Proof.
  induction a as [|c' a IH]; [done|]. simpl.
  intros [Hc Ha]%andb_true_iff. apply negb_true_iff, bool_decide_eq_false in Hc.
  unfold contains. simpl. rewrite decide_False by done.
  specialize (IH Ha). unfold contains in IH.
  by destruct (cut (chr c) a) as [[??]|].
Qed.

(** The two groups of a match: a non-empty text without closing bracket,
    and a path without closing parenthesis that ends in [.md] after at
    least one character. *)
Lemma match_here_link_groups (s : string) (caps : list string) (len : nat) :
  Re.match_here link_pattern s = Some (caps, len) →
  ∃ text stem,
    caps = [text; stem +:+ ".md"]
    ∧ text ≠ "" ∧ contains "]" text = false
    ∧ stem ≠ "" ∧ contains ")" stem = false.
Proof.
  unfold Re.match_here, link_pattern. unfold Re.seq at 1. cbn [foldr].
  intros (s1 & -> & H)%rmatch_lit.
  apply rmatch_group_plus in H as (text & s2 & -> & Htext & Hall & H).
  apply rmatch_lit in H as (s3 & -> & H).
  apply rmatch_lit in H as (s4 & -> & H).
  apply rmatch_opt_lit in H as (s5 & p5 & H).
  apply rmatch_opt_lit in H as (s6 & p6 & H).
  apply rmatch_group_plus_lits in H as (stem & s7 & p7 & -> & Hstem & Hall' & H).
  apply rmatch_lit in H as (s8 & -> & H). simpl in H. injection H as <- _.
  exists text, stem. split_and!; [done|done| |done|]; by apply chars_all_except.
Qed.

(** Every item of [finditer] is a match at some position. *)
Lemma finditer_from_match (r : Re.regex) (skip : nat) (s : string)
    (caps : list string) :
  caps ∈ Re.finditer_from r skip s →
  ∃ s' len, Re.match_here r s' = Some (caps, len).
Proof.
  revert skip. induction s as [|c s IH]; intros skip.
  { by intros ?%not_elem_of_nil. }
  cbn [Re.finditer_from]. destruct skip as [|n]; [|by apply IH].
  destruct (Re.match_here r (String c s)) as [[caps' len]|] eqn:Hm;
    [|by apply IH].
  intros [->|Hin]%elem_of_cons; [by eauto|]. by apply IH in Hin.
Qed.

(** ** File names *)

Section names.
Implicit Types (p s stem : string) (c : ascii).

Lemma contains_chr_cons_false c c' s :
  c ≠ c' → contains (chr c) s = false → contains (chr c) (String c' s) = false.
Proof.
  intros Hne Hs. unfold contains in *. simpl. rewrite decide_False by done.
  by destruct (cut (chr c) s) as [[??]|].
Qed.

Lemma contains_chr_drop c n s :
  contains (chr c) s = false → contains (chr c) (drop n s) = false.
Proof.
  revert s. induction n as [|n IH]; intros s; [done|].
  destruct s as [|c' s]; [done|]. simpl.
  intros [_ Hs]%contains_chr_cons. by apply IH.
Qed.

Lemma rfind_None c p : Posix.rfind c p = None → contains (chr c) p = false.
Proof.
  induction p as [|c' p IH]; [done|]. simpl.
  destruct (Posix.rfind c p); [done|].
  destruct (decide (c' = c)) as [|Hne]; [done|]. intros _.
  apply contains_chr_cons_false; [done|]. by apply IH.
Qed.

Lemma rfind_Some c p i :
  Posix.rfind c p = Some i → contains (chr c) (drop (S i) p) = false.
Proof.
  revert i. induction p as [|c' p IH]; intros i; [done|]. simpl.
  destruct (Posix.rfind c p) as [j|] eqn:Hj.
  - intros [= <-]. by apply IH.
  - destruct (decide (c' = c)); [|done]. intros [= <-]. simpl.
    by apply rfind_None.
Qed.

(** A base name holds no separator. *)
Lemma basename_no_slash p : contains "/" (Posix.basename p) = false.
Proof.
  unfold Posix.basename. destruct (Posix.rfind "/" p) as [i|] eqn:Hi.
  - by apply (rfind_Some "/"%char).
  - by apply (rfind_None "/"%char).
Qed.

Lemma rfind_app_md p :
  Posix.rfind "/" (p +:+ ".md") = Posix.rfind "/" p.
Proof.
  induction p as [|c p IH]; [done|]. rewrite append_cons. simpl.
  by rewrite IH.
Qed.

Lemma rfind_lt c p i : Posix.rfind c p = Some i → i < String.length p.
Proof.
  revert i. induction p as [|c' p IH]; intros i; [done|]. simpl.
  destruct (Posix.rfind c p) as [j|].
  - intros [= <-]. specialize (IH j eq_refl). lia.
  - destruct (decide (c' = c)); [|done]. intros [= <-]. lia.
Qed.

Lemma drop_app_le n p s :
  n ≤ String.length p → drop n (p +:+ s) = drop n p +:+ s.
Proof.
  revert p. induction n as [|n IH]; intros p Hn; [done|].
  destruct p as [|c p]; [simpl in Hn; lia|].
  rewrite append_cons. simpl. apply IH. simpl in Hn. lia.
Qed.

(** The base name of a path that ends in [.md] ends in [.md]. *)
Lemma basename_md stem : ends_with ".md" (Posix.basename (stem +:+ ".md")).
Proof.
  unfold Posix.basename. rewrite rfind_app_md.
  destruct (Posix.rfind "/" stem) as [i|] eqn:Hi; [|by exists stem].
  exists (drop (S i) stem). apply drop_app_le.
  apply rfind_lt in Hi. lia.
Qed.

Lemma cut_cons sep c s :
  cut sep (String c s)
  = if startswith sep (String c s)
    then Some ("", drop (String.length sep) (String c s))
    else match cut sep s with
         | Some (a, b) => Some (String c a, b)
         | None => None
         end.
Proof. reflexivity. Qed.

Lemma cut_dot_slash_None s : contains "/" s = false → cut "./" s = None.
Proof.
  induction s as [|c s IH]; [done|].
  intros [Hc Hs]%(contains_chr_cons "/"%char).
  rewrite cut_cons, (IH Hs).
  assert (startswith "./" (String c s) = false) as ->; [|done].
  simpl. destruct (decide ("."%char = c)); [|done].
  destruct s as [|c' s]; [done|].
  apply (contains_chr_cons "/"%char) in Hs as [Hc' _].
  by rewrite decide_False.
Qed.

(** Removing [./] from a text without separator changes nothing. *)
Lemma replace_dot_slash_id s : contains "/" s = false → replace "./" "" s = s.
Proof.
  intros Hs%cut_dot_slash_None. unfold replace, split.
  destruct (String.length s); simpl; [done|]. by rewrite Hs.
Qed.
End names.

Lemma extract_links_names (content : string) :
  extract_links content
  = (λ m, (Re.group 1 m, Posix.basename (Re.group 2 m)))
      <$> Re.finditer link_pattern content.
Proof.
  unfold extract_links. apply list_fmap_ext. intros _ m _. simpl. f_equal.
  apply replace_dot_slash_id, basename_no_slash.
Qed.

(** ** Finding a link, and the note with unclosed front matter *)

Section link_found.
Context {R : Type}.
Implicit Types (s a b text prefix stem post : string) (cl : Re.cclass).

Lemma chars_all_of_except c a :
  contains (chr c) a = false → chars_all (Re.accepts (Re.Except c)) a = true.
Proof.
  induction a as [|c' a IH]; [done|].
  intros [Hc Ha]%contains_chr_cons. simpl.
  rewrite bool_decide_false by done. by apply IH.
Qed.

(** [cl+] takes a run of the class that cannot go on, when what follows
    matches after it. *)
Lemma plus_loop_run cl a b pos (k : string → nat → option R) r :
  a ≠ "" →
  chars_all (Re.accepts cl) a = true →
  (∀ p, Re.plus_loop cl b p k = None) →
  k b (pos + String.length a) = Some r →
  Re.plus_loop cl (a +:+ b) pos k = Some r.
Proof.
  revert pos. induction a as [|c a IH]; intros pos Ha Hall Hstop Hk; [done|].
  apply andb_true_iff in Hall as [Hc Hall].
  rewrite append_cons. cbn [Re.plus_loop]. rewrite Hc.
  destruct a as [|c' a].
  - rewrite append_nil, Hstop. simpl in Hk. by rewrite Nat.add_1_r in Hk.
  - rewrite (IH (S pos)); [done|done|done|done|].
    simpl in Hk |- *. by rewrite <- Nat.add_succ_comm in Hk.
Qed.

(** [[^)]+] before [.md)] gives back what it took past the stem. *)
Lemma plus_loop_stem stem post pos (k : string → nat → option R) r :
  stem ≠ "" →
  contains ")" stem = false →
  (∀ p, k (String "m" (String "d" (String ")" post))) p = None) →
  (∀ p, k (String "d" (String ")" post)) p = None) →
  (∀ p, k (String ")" post) p = None) →
  k (String "." (String "m" (String "d" (String ")" post))))
    (pos + String.length stem) = Some r →
  Re.plus_loop (Re.Except ")")
    (stem +:+ String "." (String "m" (String "d" (String ")" post)))) pos k
  = Some r.
Proof.
  intros Hstem Hpar Hm Hd Hp.
  revert pos. induction stem as [|c stem IH]; intros pos Hk; [done|].
  apply (contains_chr_cons ")"%char) in Hpar as [Hc Hpar].
  rewrite append_cons. cbn [Re.plus_loop].
  assert (Re.accepts (Re.Except ")") c = true) as ->.
  { simpl. by rewrite bool_decide_false by done. }
  destruct stem as [|c' stem].
  - rewrite append_nil. simpl. rewrite Hp, Hd, Hm.
    simpl in Hk. by rewrite Nat.add_1_r in Hk.
  - rewrite (IH ltac:(done) Hpar (S pos)); [done|].
    simpl in Hk |- *. by rewrite <- Nat.add_succ_comm in Hk.
Qed.

Lemma rmatch_lit_found c rest s pos caps
    (k : string → nat → list string → option R) :
  Re.rmatch (Re.Cat (Re.lit c) rest) (String c s) pos caps k
  = Re.rmatch rest s (S pos) caps k.
Proof. simpl. by rewrite bool_decide_true by done. Qed.

Lemma rmatch_opt_lit_found c rest s pos caps
    (k : string → nat → list string → option R) r :
  Re.rmatch rest s (S pos) caps k = Some r →
  Re.rmatch (Re.Cat (Re.Opt (Re.lit c)) rest) (String c s) pos caps k = Some r.
Proof. intros H. simpl. rewrite bool_decide_true by done. by rewrite H. Qed.

Lemma rmatch_opt_lit_absent c rest s pos caps
    (k : string → nat → list string → option R) :
  startswith (chr c) s = false →
  Re.rmatch (Re.Cat (Re.Opt (Re.lit c)) rest) s pos caps k
  = Re.rmatch rest s pos caps k.
Proof.
  intros Hs. simpl. destruct s as [|c' s]; [done|]. simpl in Hs |- *.
  destruct (decide (c = c')) as [->|Hne]; [done|].
  by rewrite bool_decide_false by done.
Qed.

Lemma rmatch_group_plus_found cl rest a b pos caps
    (k : string → nat → list string → option R) r :
  a ≠ "" →
  chars_all (Re.accepts cl) a = true →
  (∀ c b', b = String c b' → Re.accepts cl c = false) →
  Re.rmatch rest b (pos + String.length a) (caps ++ [a]) k = Some r →
  Re.rmatch (Re.Cat (Re.Group (Re.Plus cl)) rest) (a +:+ b) pos caps k = Some r.
Proof.
  intros Ha Hall Hstop Hrest. cbn [Re.rmatch].
  apply plus_loop_run; [done|done| |].
  - intros p. destruct b as [|c b']; [done|]. simpl.
    by rewrite (Hstop c b').
  - replace (pos + String.length a - pos) with (String.length a) by lia.
    by rewrite take_app_length.
Qed.

Lemma rmatch_group_md_found rest stem post pos caps
    (k : string → nat → list string → option R) r :
  stem ≠ "" →
  contains ")" stem = false →
  Re.rmatch rest (String ")" post) (S (S (S (pos + String.length stem))))
    (caps ++ [stem +:+ ".md"]) k = Some r →
  Re.rmatch
    (Re.Cat
       (Re.Group
          (Re.seq [Re.Plus (Re.Except ")"); Re.lit "."; Re.lit "m"; Re.lit "d"]))
       rest)
    (stem +:+ String "." (String "m" (String "d" (String ")" post))))
    pos caps k = Some r.
Proof.
  intros Hstem Hpar Hrest. unfold Re.seq. cbn [foldr Re.rmatch].
  apply plus_loop_stem; [done|done|done|done|done|].
  simpl.
  replace (S (S (S (pos + String.length stem))) - pos)
    with (String.length (stem +:+ ".md"))
    by (rewrite length_app; simpl; lia).
  change (stem +:+ String "." (String "m" (String "d" (String ")" post))))
    with (stem +:+ ".md" +:+ String ")" post).
  by rewrite <- app_assoc_string, take_app_length.
Qed.
End link_found.

(** A link whose text has no closing bracket and whose name has no
    closing parenthesis matches the pattern where it starts. *)
Lemma match_here_link_found (text prefix stem post : string) :
  text ≠ "" → contains "]" text = false →
  stem ≠ "" → contains ")" stem = false →
  prefix = "./"
  ∨ prefix = "" ∧ startswith "." stem = false ∧ startswith "/" stem = false →
  Re.match_here link_pattern (markdown_link text prefix stem +:+ post)
  = Some ([text; stem +:+ ".md"], String.length (markdown_link text prefix stem)).
Proof.
  intros Htext Hbr Hstem Hpar Hprefix.
  assert (markdown_link text prefix stem +:+ post
          = String "[" (text +:+ String "]" (String "("
              (prefix +:+ stem
               +:+ String "." (String "m" (String "d" (String ")" post)))))))
    as ->.
  { unfold markdown_link. rewrite !app_assoc_string. reflexivity. }
  assert (String.length (markdown_link text prefix stem)
          = 7 + String.length text + String.length prefix
            + String.length stem) as ->.
  { unfold markdown_link. rewrite !length_app. simpl. lia. }
  unfold Re.match_here, link_pattern. unfold Re.seq at 1. cbn [foldr].
  rewrite rmatch_lit_found.
  apply rmatch_group_plus_found; [done|by apply chars_all_of_except| |].
  { by intros c b' [= <- _]. }
  rewrite !rmatch_lit_found.
  destruct Hprefix as [->|(-> & Hdot & Hslash)].
  - change ("./" +:+ stem +:+ ?x) with (String "." (String "/" (stem +:+ x))).
    do 2 apply rmatch_opt_lit_found.
    apply rmatch_group_md_found; [done|done|].
    rewrite rmatch_lit_found. simpl. do 2 f_equal. lia.
  - change ("" +:+ stem +:+ ?x) with (stem +:+ x).
    destruct stem as [|c stem]; [done|]. rewrite append_cons.
    rewrite !rmatch_opt_lit_absent by done. rewrite <- append_cons.
    apply rmatch_group_md_found; [done|done|].
    rewrite rmatch_lit_found. simpl. do 2 f_equal. lia.
Qed.

Lemma finditer_from_skip (r : Re.regex) (a b : string) :
  Re.finditer_from r (String.length a) (a +:+ b) = Re.finditer_from r 0 b.
Proof.
  induction a as [|c a IH]; [by rewrite append_nil|].
  by rewrite append_cons.
Qed.

(** Such a link, with no opening bracket before it, is the first that
    [extract_links] returns; the search goes on behind it. *)
Lemma extract_links_found (pre text prefix stem post : string) :
  contains "[" pre = false →
  text ≠ "" → contains "]" text = false →
  stem ≠ "" → contains ")" stem = false →
  prefix = "./"
  ∨ prefix = "" ∧ startswith "." stem = false ∧ startswith "/" stem = false →
  extract_links (pre +:+ markdown_link text prefix stem +:+ post)
  = (text, Posix.basename (stem +:+ ".md")) :: extract_links post.
Proof.
  intros Hpre Htext Hbr Hstem Hpar Hprefix.
  rewrite !extract_links_names, (finditer_no_bracket pre _ Hpre).
  pose proof (match_here_link_found text prefix stem post
                Htext Hbr Hstem Hpar Hprefix) as Hm.
  unfold Re.finditer.
  assert (∃ tail, markdown_link text prefix stem = String "[" tail)
    as [tail Htail] by by eexists.
  rewrite Htail in Hm |- *. rewrite append_cons. cbn [Re.finditer_from].
  rewrite append_cons in Hm. rewrite Hm. simpl String.length.
  replace (S (String.length tail) - 1) with (String.length tail) by lia.
  by rewrite finditer_from_skip.
Qed.

(** C6. A note that opens with the delimiter and has no second one has no
    front matter and the empty title. The loop still searches its whole
    content for links: a link written in the body, with no opening bracket
    before it, is the first link found, the search goes on behind it, and
    every link found is recorded in the returned maps. *)
Theorem unclosed_front_matter_is_still_scanned
    (d : src_dir) (f : note_file) (body : string) :
  contains "---" body = false →
  f ∈ glob_md d →
  read f = ReadOk ("---" +:+ body) →
  let content := "---" +:+ body in
  extract_yaml_frontmatter content = ∅
  ∧ Scan.title_of content = ""
  ∧ (∀ existing_files st,
       Scan.scan_file existing_files st f
       = foldl (Scan.add_link existing_files (name f)) st (extract_links content))
  ∧ (∀ text t,
       (text, t) ∈ extract_links content →
       recorded (existing_files_of (glob_md d)) (scan_notes d).2 f text t)
  ∧ (∀ pre text prefix stem post,
       body = pre +:+ markdown_link text prefix stem +:+ post →
       contains "[" pre = false →
       text ≠ "" → contains "]" text = false →
       stem ≠ "" → contains ")" stem = false →
       prefix = "./"
       ∨ prefix = "" ∧ startswith "." stem = false
         ∧ startswith "/" stem = false →
       extract_links content
       = (text, Posix.basename (stem +:+ ".md")) :: extract_links post
       ∧ recorded (existing_files_of (glob_md d)) (scan_notes d).2 f
           text (Posix.basename (stem +:+ ".md"))).
Proof.
  intros Hopen Hin Hread content.
  assert (extract_yaml_frontmatter content = ∅) as Hfm
    by by apply extract_yaml_frontmatter_unclosed.
  assert (Scan.title_of content = "") as Htitle.
  { unfold Scan.title_of. by rewrite Hfm. }
  split_and!; [done..| | |].
  - intros existing_files st. unfold Scan.scan_file. rewrite Hread.
    fold content. by rewrite Htitle.
  - intros text t Hlink. by apply (link_recorded d f content).
  - intros pre text prefix stem post Hbody Hpre Htext Hbr Hstem Hpar Hprefix.
    assert (extract_links content
            = (text, Posix.basename (stem +:+ ".md")) :: extract_links post)
      as Hlinks.
    { unfold content. rewrite Hbody, <- app_assoc_string.
      apply extract_links_found; [|done..].
      apply (contains_chr_cons_false "["%char); [done|].
      apply (contains_chr_cons_false "["%char); [done|].
      by apply (contains_chr_cons_false "["%char). }
    split; [done|]. apply (link_recorded d f content); [done..|].
    rewrite Hlinks. by left.
Qed.

Lemma unclosed_front_matter_is_still_scanned_witness :
  let f := note "A.md" (ReadOk ("---" +:+ unclosed_body)) in
  let content := "---" +:+ unclosed_body in
  let maps := (scan_notes dir_unclosed).2 in
  (contains "---" unclosed_body = false
   ∧ f ∈ glob_md dir_unclosed
   ∧ read f = ReadOk content)
  ∧ (extract_yaml_frontmatter content = ∅
     ∧ Scan.title_of content = ""
     ∧ extract_links content = [("Gamma", "c.md"); ("Beta", "b.md")]
     ∧ recorded (existing_files_of (glob_md dir_unclosed)) maps f "Gamma" "c.md"
     ∧ recorded (existing_files_of (glob_md dir_unclosed)) maps f "Beta" "b.md")
  ∧ all_links_of maps = {[ "c.md" := ["Gamma"]; "b.md" := ["Beta"] ]}
  ∧ broken_links_of maps = {[ "c.md" := ["Gamma"] ]}
  ∧ files_linking_to_of maps = {[ "c.md" := ["A.md"]; "b.md" := ["A.md"] ]}
  ∧ existing_notes_of maps = ∅.
Proof.
  intros f content maps. subst content.
  assert (f ∈ glob_md dir_unclosed) as Hin.
  { apply (bool_decide_unpack _). by vm_compute. }
  assert (contains "---" unclosed_body = false) as Hopen by by vm_compute.
  destruct (unclosed_front_matter_is_still_scanned dir_unclosed f unclosed_body
              Hopen Hin eq_refl) as (Hfm & Htitle & _ & Hrec & Hfound).
  destruct (Hfound (lines [""; "title: Lost"; "--"; ""]) "Gamma" "" "c"
              " and [Beta](b.md)")
    as [Hlinks HGamma];
    [reflexivity|by vm_compute|done|by vm_compute|done|by vm_compute
    |right; by vm_compute|].
  assert (extract_links ("---" +:+ unclosed_body)
          = [("Gamma", "c.md"); ("Beta", "b.md")])
    as Hall by (rewrite Hlinks; by vm_compute).
  split; [by split_and!|]. split.
  { split_and!; [exact Hfm|exact Htitle|exact Hall|exact HGamma|].
    apply Hrec. rewrite Hall. right. by left. }
  by vm_compute.
Defined.

(** X2. The replacement of [./] in [extract_links] never changes a name:
    the links are the first group of each match with the base name of the
    second. *)
Theorem extract_links_basename (content : string) :
  extract_links content
  = (λ m, (Re.group 1 m, Posix.basename (Re.group 2 m)))
      <$> Re.finditer link_pattern content.
Proof. apply extract_links_names. Qed.

(** X1. Every link [extract_links] returns has a non-empty text without
    closing bracket, and a target that ends in [.md] and holds neither a
    path separator nor a closing parenthesis. *)
Theorem extract_links_shape (content text target : string) :
  (text, target) ∈ extract_links content →
  text ≠ ""
  ∧ contains "]" text = false
  ∧ ends_with ".md" target
  ∧ contains "/" target = false
  ∧ contains ")" target = false.
Proof.
  rewrite extract_links_names.
  intros (m & [= -> ->] & Hm)%list_elem_of_fmap.
  apply finditer_from_match in Hm as (s' & len & Hm).
  apply match_here_link_groups in Hm
    as (text & stem & -> & Htext & Hbr & Hstem & Hpar).
  change (Re.group 1 [text; stem +:+ ".md"]) with text.
  change (Re.group 2 [text; stem +:+ ".md"]) with (stem +:+ ".md").
  split_and!; [done|done|apply basename_md|apply basename_no_slash|].
  assert (contains ")" (stem +:+ ".md") = false) as Hpath.
  { clear -Hpar. induction stem as [|c stem IH]; [done|].
    apply (contains_chr_cons ")"%char) in Hpar as [Hc Hs].
    rewrite append_cons. apply (contains_chr_cons_false ")"%char); [done|].
    by apply IH. }
  unfold Posix.basename. destruct (Posix.rfind "/" (stem +:+ ".md")); [|done].
  by apply (contains_chr_drop ")"%char).
Qed.

Lemma extract_links_shape_witness :
  ("Beta", "b.md") ∈ extract_links "see [Beta](./notes/b.md) here"
  ∧ "Beta" ≠ ""
  ∧ contains "]" "Beta" = false
  ∧ ends_with ".md" "b.md"
  ∧ contains "/" "b.md" = false
  ∧ contains ")" "b.md" = false.
Proof.
  assert (("Beta", "b.md") ∈ extract_links "see [Beta](./notes/b.md) here")
    as Hin by (apply (bool_decide_unpack _); by vm_compute).
  split; [exact Hin|].
  exact (extract_links_shape "see [Beta](./notes/b.md) here" "Beta" "b.md" Hin).
Defined.

(** X3. A text without opening bracket has no links. *)
Theorem extract_links_without_bracket (content : string) :
  contains "[" content = false → extract_links content = [].
Proof.
  intros Hno. unfold extract_links.
  assert (content = content +:+ "") as ->.
  { clear. induction content as [|c s IH]; [done|].
    by rewrite append_cons, <- IH. }
  by rewrite (finditer_no_bracket _ "" Hno).
Qed.

Lemma extract_links_without_bracket_witness :
  contains "[" "plain (text).md with ] and ) only" = false
  ∧ extract_links "plain (text).md with ] and ) only" = [].
Proof.
  split; [reflexivity|].
  exact (extract_links_without_bracket "plain (text).md with ] and ) only"
           eq_refl).
Defined.

(** ** Titles *)

Section titles.
Variable existing_files : gset string.
Implicit Types (st : Scan.state) (f : note_file) (files : list note_file).

Lemma scan_file_title_set st f content :
  read f = ReadOk content →
  Scan.title_of content ≠ "" →
  Scan.existing_notes (Scan.scan_file existing_files st f)
    !! Scan.title_of content = Some (name f).
Proof.
  intros Hread Htitle. unfold Scan.scan_file. rewrite Hread.
  rewrite add_links_existing_notes, decide_False by done. simpl.
  apply lookup_insert_eq.
Qed.

Lemma scan_file_title_other st f title :
  (∀ content, read f = ReadOk content → Scan.title_of content ≠ title) →
  Scan.existing_notes (Scan.scan_file existing_files st f) !! title
  = Scan.existing_notes st !! title.
Proof.
  intros Hother. unfold Scan.scan_file.
  destruct (read f) as [content|e] eqn:Hread; [|done].
  rewrite add_links_existing_notes.
  destruct (decide _); [done|]. simpl.
  apply lookup_insert_ne. by apply Hother.
Qed.

Lemma scan_files_title_other st files title :
  (∀ f content, f ∈ files → read f = ReadOk content →
                Scan.title_of content ≠ title) →
  Scan.existing_notes (Scan.scan_files existing_files files st) !! title
  = Scan.existing_notes st !! title.
Proof.
  revert st. induction files as [|f files IH]; intros st Hother; [done|].
  change (Scan.scan_files existing_files (f :: files) st)
    with (Scan.scan_files existing_files files
            (Scan.scan_file existing_files st f)).
  rewrite IH.
  - apply scan_file_title_other. intros content. apply Hother. by left.
  - intros g content Hg. apply Hother. by right.
Qed.

Lemma scan_file_titles_size st f :
  size (Scan.existing_notes (Scan.scan_file existing_files st f))
  ≤ S (size (Scan.existing_notes st)).
Proof.
  unfold Scan.scan_file. destruct (read f) as [content|e]; [|simpl; lia].
  rewrite add_links_existing_notes. destruct (decide _); [lia|]. simpl.
  rewrite map_size_insert. destruct (_ !! _); simpl; lia.
Qed.

Lemma scan_files_titles_size st files :
  size (Scan.existing_notes (Scan.scan_files existing_files files st))
  ≤ size (Scan.existing_notes st) + length files.
Proof.
  revert st. induction files as [|f files IH]; intros st; [simpl; lia|].
  change (Scan.scan_files existing_files (f :: files) st)
    with (Scan.scan_files existing_files files
            (Scan.scan_file existing_files st f)).
  specialize (IH (Scan.scan_file existing_files st f)).
  pose proof (scan_file_titles_size st f). simpl. lia.
Qed.
End titles.

(** X4. When several notes declare the same title, the one scanned last
    gives the file name recorded for it. *)
Theorem last_title_wins
    (files1 files2 : list note_file) (f : note_file) (content : string) :
  read f = ReadOk content →
  Scan.title_of content ≠ "" →
  (∀ g c, g ∈ files2 → read g = ReadOk c →
          Scan.title_of c ≠ Scan.title_of content) →
  let '(existing_notes, _, _, _) :=
    (scan_notes (Some (files1 ++ f :: files2))).2 in
  existing_notes !! Scan.title_of content = Some (name f).
Proof.
  intros Hread Htitle Hlater. scan_result (Some (files1 ++ f :: files2)).
  unfold final_state. cbn [glob_md default from_option id].
  rewrite scan_files_app.
  change (Scan.scan_files ?E (f :: files2) ?s)
    with (Scan.scan_files E files2 (Scan.scan_file E s f)).
  rewrite (scan_files_title_other _ _ _ _ Hlater).
  by apply scan_file_title_set.
Qed.

(** X5. Every entry of [existing_notes] comes from a readable note: the
    key is its non-empty title, the value its file name. *)
Theorem existing_notes_entries (d : src_dir) (title filename : string) :
  existing_notes_of (scan_notes d).2 !! title = Some filename →
  title ≠ ""
  ∧ ∃ f content,
      f ∈ glob_md d ∧ name f = filename ∧ read f = ReadOk content
      ∧ Scan.title_of content = title.
Proof.
  scan_part d.
  intros [Hinit|(f & c & Hin & Hname & Hread & Htitle & Hne)]%scan_files_titles.
  - simpl in Hinit. by rewrite lookup_empty in Hinit.
  - split; [done|]. by exists f, c.
Qed.

(** ** The lists of link texts and of linking files *)

Lemma first_seen_sublist (seen : gset string) (l : list string) :
  first_seen seen l `sublist_of` l.
Proof.
  revert seen. induction l as [|x l IH]; intros seen; simpl; [constructor|].
  destruct (decide (x ∈ seen)).
  - by apply sublist_cons.
  - by apply sublist_skip.
Qed.

Lemma dict_fromkeys_sublist (l : list string) : dict_fromkeys l `sublist_of` l.
Proof. rewrite dict_fromkeys_first_seen. apply first_seen_sublist. Qed.

Lemma Sorted_sorted (value : gset string) : Sorted String.le (sorted value).
Proof. apply Sorted_merge_sort. apply _. Qed.

Lemma NoDup_sorted (value : gset string) : NoDup (sorted value).
Proof.
  unfold sorted. rewrite merge_sort_Permutation. apply NoDup_elements.
Qed.

(** Where a text stands in the list of first occurrences: the texts
    before it are those met before its first occurrence. *)
Lemma first_seen_position (seen : gset string) (l pre post : list string)
    (x : string) :
  first_seen seen l = pre ++ x :: post →
  ∃ before after,
    l = before ++ x :: after
    ∧ (x ∉ before) ∧ (x ∉ seen)
    ∧ (∀ y, y ∈ before → y ∈ seen ∨ y ∈ pre)
    ∧ (∀ y, y ∈ pre → y ∈ before).
Proof.
  revert seen pre. induction l as [|a l IH]; intros seen pre; simpl.
  { by destruct pre. }
  destruct (decide (a ∈ seen)) as [Ha|Ha].
  - intros (before & after & -> & Hx & Hseen & Hsub & Hpre)%IH.
    exists (a :: before), after. split_and!; [done| |done| |].
    + rewrite not_elem_of_cons. split; [|done]. by intros ->.
    + intros y [->|Hy]%elem_of_cons; [by left|by apply Hsub].
    + intros y Hy. right. by apply Hpre.
  - destruct pre as [|b pre]; simpl.
    + intros [= -> _]. exists [], l. split_and!; [done| |done| |done].
      * apply not_elem_of_nil.
      * by intros y ?%not_elem_of_nil.
    + intros [= -> (before & after & -> & Hx & Hseen & Hsub & Hpre)%IH].
      apply not_elem_of_union in Hseen as [Hxb%not_elem_of_singleton Hseen].
      exists (b :: before), after. split_and!; [done| |done| |].
      * by rewrite not_elem_of_cons.
      * intros y [->|Hy]%elem_of_cons; [right; by left|].
        destruct (Hsub y Hy) as [[->%elem_of_singleton|?]%elem_of_union|?].
        -- right. by left.
        -- by left.
        -- right. by right.
      * intros y [->|Hy]%elem_of_cons; [by left|]. right. by apply Hpre.
Qed.

Lemma dict_fromkeys_position (l pre post : list string) (x : string) :
  dict_fromkeys l = pre ++ x :: post →
  ∃ before after,
    l = before ++ x :: after ∧ (x ∉ before) ∧ ∀ y, y ∈ before ↔ y ∈ pre.
Proof.
  rewrite dict_fromkeys_first_seen.
  intros (before & after & -> & Hx & _ & Hsub & Hpre)%first_seen_position.
  exists before, after. split_and!; [done..|]. intros y. split; [|by apply Hpre].
  intros [Hy|Hy]%Hsub; [|done]. by apply not_elem_of_empty in Hy.
Qed.

(** X8. An entry of [all_links] lists the link texts that point at the
    target, each once, in the order in which they are first met: it is
    the list of all such texts in scanning order with every repetition
    removed, so the texts that stand before a text [x] in the entry are
    exactly those met before the first occurrence of [x]. *)
Theorem all_links_first_occurrences (d : src_dir) (t : string) (texts : list string) :
  all_links_of (scan_notes d).2 !! t = Some texts →
  texts = dict_fromkeys (mention_texts t (glob_md d))
  ∧ NoDup texts
  ∧ texts `sublist_of` mention_texts t (glob_md d)
  ∧ (∀ text, text ∈ texts ↔ mentions (glob_md d) text t)
  ∧ ∀ pre x post,
      texts = pre ++ x :: post →
      ∃ before after,
        mention_texts t (glob_md d) = before ++ x :: after
        ∧ (x ∉ before)
        ∧ ∀ y, y ∈ before ↔ y ∈ pre.
Proof.
  scan_part d. rewrite lookup_fmap, final_all_links.
  destruct (mention_texts t (glob_md d)) as [|x l] eqn:E; [done|].
  simpl. intros [= <-]. rewrite <- E. split_and!.
  - done.
  - apply NoDup_dict_fromkeys.
  - apply dict_fromkeys_sublist.
  - intros text. by rewrite elem_of_dict_fromkeys, mentions_texts.
  - intros pre y post. apply dict_fromkeys_position.
Qed.

(** X6. An entry of [files_linking_to] lists, in ascending order and each
    once, the names of the notes that hold a link to the target. *)
Theorem files_linking_to_sorted (d : src_dir) (t : string) (sources : list string) :
  files_linking_to_of (scan_notes d).2 !! t = Some sources →
  Sorted String.le sources
  ∧ NoDup sources
  ∧ ∀ n, n ∈ sources
         ↔ ∃ f content text,
             f ∈ glob_md d ∧ name f = n ∧ read f = ReadOk content
             ∧ (text, t) ∈ extract_links content.
Proof.
  scan_part d. rewrite lookup_fmap, final_files_linking_to.
  destruct (linkers_to t (glob_md d)) as [|x l] eqn:E; [done|].
  simpl. intros [= <-]. split_and!; [apply Sorted_sorted|apply NoDup_sorted|].
  intros n. rewrite elem_of_sorted, (left_id_L ∅ (∪)).
  change ({[x]} ∪ list_to_set l) with (list_to_set (C:=gset string) (x :: l)).
  rewrite <- E, elem_of_list_to_set, elem_of_linkers_to. split.
  - intros (f & Hin & Hname & Hne). unfold file_links in Hne.
    destruct (read f) as [content|e] eqn:Hread; [|done].
    destruct (texts_to t (extract_links content)) as [|text l'] eqn:Et; [done|].
    exists f, content, text. split_and!; [done..|].
    apply elem_of_texts_to. rewrite Et. by left.
  - intros (f & content & text & Hin & Hname & Hread & Hlink).
    exists f. split_and!; [done..|]. unfold file_links. rewrite Hread.
    intros Hnil. apply elem_of_texts_to in Hlink. rewrite Hnil in Hlink.
    by apply not_elem_of_nil in Hlink.
Qed.

Lemma broken_links_filter_eq (d : src_dir) :
  let '(_, all_links, broken_links, _) := (scan_notes d).2 in
  broken_links
  = filter (λ item, item.1 ∉ existing_files_of (glob_md d)) all_links.
Proof.
  scan_result d. apply map_eq. intros t.
  rewrite map_lookup_filter, !lookup_fmap, final_all_links, final_broken_links.
  destruct (decide (t ∈ existing_files_of (glob_md d))) as [Hin|Hout];
    destruct (dd_extend None (mention_texts t (glob_md d))) as [l|];
    simpl; try done.
  - by rewrite option_guard_False by (simpl; auto).
  - by rewrite option_guard_True.
Qed.

(** X7. [broken_links] is [all_links] restricted to the targets that are
    no file of the directory. *)
Theorem broken_links_are_filtered_all_links (d : src_dir) :
  let '(_, all_links, broken_links, _) := (scan_notes d).2 in
  broken_links
  = filter (λ item, item.1 ∉ existing_files_of (glob_md d)) all_links.
Proof. apply broken_links_filter_eq. Qed.

Lemma last_title_wins_witness :
  let volga := lines ["---"; "title: Volga"; "---"; "[Don](don.md)"] in
  let old := note "old.md" (ReadOk volga) in
  let new := note "new.md" (ReadOk volga) in
  let don := note "don.md" (ReadOk (lines ["---"; "author: me"; "---"; "[V](old.md)"])) in
  read new = ReadOk volga
  ∧ Scan.title_of volga ≠ ""
  ∧ existing_notes_of (scan_notes (Some ([old] ++ new :: [don]))).2 !! "Volga"
    = Some "new.md".
Proof.
  intros volga old new don.
  assert (Scan.title_of volga ≠ "") as Htitle by by vm_compute.
  assert (∀ g c, g ∈ [don] → read g = ReadOk c →
                 Scan.title_of c ≠ Scan.title_of volga) as Hlater.
  { intros g c ->%list_elem_of_singleton [= <-]. by vm_compute. }
  split; [reflexivity|]. split; [exact Htitle|].
  exact (last_title_wins [old] [don] new volga eq_refl Htitle Hlater).
Defined.

Lemma existing_notes_entries_witness :
  existing_notes_of (scan_notes dir_alpha_beta).2 !! "Alpha" = Some "A.md"
  ∧ "Alpha" ≠ ""
  ∧ ∃ f content,
      f ∈ glob_md dir_alpha_beta ∧ name f = "A.md" ∧ read f = ReadOk content
      ∧ Scan.title_of content = "Alpha".
Proof.
  assert (existing_notes_of (scan_notes dir_alpha_beta).2 !! "Alpha"
          = Some "A.md") as Hlook by by vm_compute.
  split; [exact Hlook|].
  exact (existing_notes_entries dir_alpha_beta "Alpha" "A.md" Hlook).
Defined.

Lemma all_links_first_occurrences_witness :
  all_links_of (scan_notes dir_repeated).2 !! "x.md" = Some ["A"; "B"; "C"]
  ∧ mention_texts "x.md" (glob_md dir_repeated) = ["A"; "B"; "A"; "C"; "B"]
  ∧ ["A"; "B"; "C"] = dict_fromkeys (mention_texts "x.md" (glob_md dir_repeated))
  ∧ NoDup ["A"; "B"; "C"]
  ∧ ["A"; "B"; "C"] `sublist_of` mention_texts "x.md" (glob_md dir_repeated)
  ∧ (∀ text, text ∈ ["A"; "B"; "C"] ↔ mentions (glob_md dir_repeated) text "x.md")
  ∧ ∀ pre x post,
      ["A"; "B"; "C"] = pre ++ x :: post →
      ∃ before after,
        mention_texts "x.md" (glob_md dir_repeated) = before ++ x :: after
        ∧ (x ∉ before)
        ∧ ∀ y, y ∈ before ↔ y ∈ pre.
Proof.
  assert (all_links_of (scan_notes dir_repeated).2 !! "x.md"
          = Some ["A"; "B"; "C"]) as Hlook by by vm_compute.
  split; [exact Hlook|]. split; [by vm_compute|].
  exact (all_links_first_occurrences dir_repeated "x.md" _ Hlook).
Defined.

Lemma files_linking_to_sorted_witness :
  files_linking_to_of (scan_notes dir_two_links).2 !! "x.md"
    = Some ["one.md"; "two.md"]
  ∧ Sorted String.le ["one.md"; "two.md"]
  ∧ NoDup ["one.md"; "two.md"]
  ∧ ∀ n, n ∈ ["one.md"; "two.md"]
         ↔ ∃ f content text,
             f ∈ glob_md dir_two_links ∧ name f = n ∧ read f = ReadOk content
             ∧ (text, "x.md") ∈ extract_links content.
Proof.
  assert (files_linking_to_of (scan_notes dir_two_links).2 !! "x.md"
          = Some ["one.md"; "two.md"]) as Hlook by by vm_compute.
  split; [exact Hlook|].
  exact (files_linking_to_sorted dir_two_links "x.md" _ Hlook).
Defined.

(** ** The order of the directory listing *)

Section order.
Implicit Types (files : list note_file) (t : string).

Lemma mention_texts_Permutation files files' t :
  files ≡ₚ files' → mention_texts t files ≡ₚ mention_texts t files'.
Proof. intros Hperm. unfold mention_texts, texts_to. by rewrite Hperm. Qed.

Lemma linkers_to_Permutation files files' t :
  files ≡ₚ files' → linkers_to t files ≡ₚ linkers_to t files'.
Proof. intros Hperm. unfold linkers_to. by rewrite Hperm. Qed.

Lemma existing_files_of_Permutation files files' :
  files ≡ₚ files' → existing_files_of files = existing_files_of files'.
Proof. intros Hperm. unfold existing_files_of. by rewrite Hperm. Qed.

Lemma dict_fromkeys_Permutation (l l' : list string) :
  l ≡ₚ l' → dict_fromkeys l ≡ₚ dict_fromkeys l'.
Proof.
  intros Hperm. apply NoDup_Permutation; [apply NoDup_dict_fromkeys..|].
  intros x. by rewrite !elem_of_dict_fromkeys, Hperm.
Qed.

Lemma dd_extend_Permutation (l l' texts texts' : list string) :
  l ≡ₚ l' →
  dict_fromkeys <$> dd_extend None l = Some texts →
  dict_fromkeys <$> dd_extend None l' = Some texts' →
  texts ≡ₚ texts'.
Proof.
  intros Hperm. destruct l as [|x l], l' as [|x' l']; simpl; try done.
  intros [= <-] [= <-]. by apply dict_fromkeys_Permutation.
Qed.

Lemma dd_extend_Permutation_is_Some (l l' : list string) :
  l ≡ₚ l' →
  is_Some (dict_fromkeys <$> dd_extend None l)
  ↔ is_Some (dict_fromkeys <$> dd_extend None l').
Proof.
  intros Hperm. rewrite !fmap_is_Some, !dd_extend_None_is_Some.
  split; intros Hne ->.
  - by apply Permutation_nil_r in Hperm.
  - by apply Permutation_nil_l in Hperm.
Qed.
End order.

(** X9. Scanning the same entries in another order gives the same
    [files_linking_to], the same keys in [all_links] and [broken_links],
    and for each key the same link texts up to their order. *)
Theorem scan_order_independent (files files' : list note_file) :
  files ≡ₚ files' →
  let maps := (scan_notes (Some files)).2 in
  let maps' := (scan_notes (Some files')).2 in
  files_linking_to_of maps = files_linking_to_of maps'
  ∧ dom (all_links_of maps) = dom (all_links_of maps')
  ∧ dom (broken_links_of maps) = dom (broken_links_of maps')
  ∧ (∀ t texts texts',
       all_links_of maps !! t = Some texts →
       all_links_of maps' !! t = Some texts' → texts ≡ₚ texts')
  ∧ (∀ t texts texts',
       broken_links_of maps !! t = Some texts →
       broken_links_of maps' !! t = Some texts' → texts ≡ₚ texts').
Proof.
  intros Hperm maps maps'. subst maps maps'.
  unfold files_linking_to_of, all_links_of, broken_links_of.
  rewrite !scan_notes_final. unfold returned. cbn [fst snd].
  pose proof (existing_files_of_Permutation _ _ Hperm) as Hfiles.
  split_and!.
  - apply map_eq. intros t. rewrite !lookup_fmap, !final_files_linking_to.
    cbn [glob_md default from_option id].
    pose proof (linkers_to_Permutation _ _ t Hperm) as Hl.
    destruct (linkers_to t files) as [|x l], (linkers_to t files') as [|x' l'];
      simpl; [done| | |].
    + by apply Permutation_nil_l in Hl.
    + by apply Permutation_nil_r in Hl.
    + do 2 f_equal. rewrite !(left_id_L ∅ (∪)).
      change (list_to_set (C:=gset string) (x :: l) = list_to_set (x' :: l')).
      by rewrite Hl.
  - apply set_eq. intros t.
    rewrite !elem_of_dom, !lookup_fmap, !final_all_links.
    by apply dd_extend_Permutation_is_Some, mention_texts_Permutation.
  - apply set_eq. intros t.
    rewrite !elem_of_dom, !lookup_fmap, !final_broken_links.
    cbn [glob_md default from_option id]. rewrite Hfiles.
    destruct (decide _); [done|].
    by apply dd_extend_Permutation_is_Some, mention_texts_Permutation.
  - intros t texts texts'. rewrite !lookup_fmap, !final_all_links.
    by apply dd_extend_Permutation, mention_texts_Permutation.
  - intros t texts texts'. rewrite !lookup_fmap, !final_broken_links.
    cbn [glob_md default from_option id]. rewrite Hfiles.
    destruct (decide _); [done|].
    by apply dd_extend_Permutation, mention_texts_Permutation.
Qed.

Lemma scan_order_independent_witness :
  let a := note "A.md" (ReadOk "[Gamma](c.md) [Gamma](c.md) [me](A.md)") in
  let b := note "B.md" (ReadOk "[Zed](z.md) [Gamma3](c.md)") in
  let maps := (scan_notes (Some [a; b])).2 in
  let maps' := (scan_notes (Some [b; a])).2 in
  [a; b] ≡ₚ [b; a]
  ∧ files_linking_to_of maps = files_linking_to_of maps'
  ∧ dom (all_links_of maps) = dom (all_links_of maps')
  ∧ dom (broken_links_of maps) = dom (broken_links_of maps')
  ∧ (∀ t texts texts',
       all_links_of maps !! t = Some texts →
       all_links_of maps' !! t = Some texts' → texts ≡ₚ texts')
  ∧ (∀ t texts texts',
       broken_links_of maps !! t = Some texts →
       broken_links_of maps' !! t = Some texts' → texts ≡ₚ texts').
Proof.
  intros a b maps maps'.
  assert ([a; b] ≡ₚ [b; a]) as Hperm by apply perm_swap.
  split; [exact Hperm|].
  exact (scan_order_independent [a; b] [b; a] Hperm).
Defined.

(** ** Bounds on the statistics *)

Lemma sum_lengths_ge {A} (ls : list (list A)) :
  Forall (λ l, l ≠ []) ls → length ls ≤ sum_list (length <$> ls).
Proof.
  induction 1 as [|l ls Hl _ IH]; [done|]. rewrite fmap_cons. simpl.
  destruct l; [done|]. simpl. lia.
Qed.

(** X10. In the statistics of a scan there are no more broken targets
    than linked targets, no more broken targets than broken link texts,
    and no more titled notes than entries in the directory. *)
Theorem statistics_bounds (d : src_dir) :
  let st := statistics (main_json_mapping d) in
  total_broken_links st ≤ total_linked_files st
  ∧ total_broken_links st ≤ total_broken_link_mentions st
  ∧ total_existing_notes st ≤ length (glob_md d).
Proof.
  pose proof (broken_links_filter_eq d) as Hfilter.
  unfold main_json_mapping. revert Hfilter. scan_result d.
  intros Hfilter. simpl. split_and!.
  - rewrite Hfilter. apply map_subseteq_size, map_filter_subseteq.
  - unfold values. rewrite <- (length_map_to_list (dict_fromkeys <$> _)).
    rewrite <- (length_fmap snd). apply sum_lengths_ge.
    apply Forall_forall. intros l ([t l'] & -> & Hin)%list_elem_of_fmap.
    apply elem_of_map_to_list in Hin. simpl.
    rewrite lookup_fmap in Hin.
    destruct (Scan.broken_links (final_state d) !! t) as [raw|] eqn:Hraw;
      [|done].
    injection Hin as <-. rewrite dict_fromkeys_nil_iff.
    rewrite final_broken_links in Hraw. destruct (decide _); [done|].
    destruct (mention_texts t (glob_md d)); [done|].
    injection Hraw as <-. done.
  - unfold final_state.
    pose proof (scan_files_titles_size (existing_files_of (glob_md d))
                  Scan.init (glob_md d)) as Hsize.
    simpl in Hsize. by rewrite map_size_empty in Hsize.
Qed.

(** ** The tabular report *)

Section report.
Context {V : Type}.
Implicit Types (d : gmap string V).

#[local] Instance by_key_total : Total (λ x y : string * V, String.le x.1 y.1).
Proof. intros x y. apply (total String.le). Qed.

#[local] Instance by_key_trans : Transitive (λ x y : string * V, String.le x.1 y.1).
Proof. intros x y z. apply (transitivity (R:=String.le)). Qed.

Lemma sorted_items_Permutation d : sorted_items d ≡ₚ map_to_list d.
Proof. apply merge_sort_Permutation. Qed.

Lemma length_sorted_items d : length (sorted_items d) = size d.
Proof. by rewrite sorted_items_Permutation, length_map_to_list. Qed.

Lemma Sorted_sorted_items d :
  Sorted (λ x y, String.le x.1 y.1) (sorted_items d).
Proof. apply Sorted_merge_sort. apply _. Qed.
End report.

(** X12. The items of a dictionary sorted by key come in ascending order
    of the keys, no key twice, and are exactly the entries of the
    dictionary: the rows of both tables of the report follow this order. *)
Theorem sorted_items_ascending {V} (d : gmap string V) :
  Sorted (λ x y, String.le x.1 y.1) (sorted_items d)
  ∧ NoDup (sorted_items d).*1
  ∧ ∀ key value, (key, value) ∈ sorted_items d ↔ d !! key = Some value.
Proof.
  split_and!.
  - apply Sorted_sorted_items.
  - rewrite sorted_items_Permutation. apply NoDup_fst_map_to_list.
  - intros key value. rewrite sorted_items_Permutation.
    apply elem_of_map_to_list.
Qed.

(** X11. The report has the thirteen lines of its head, one row for each
    entry of [existing_notes], the nine lines of the statistics, and, only
    when there is a broken target, seven lines of heading and one row for
    each broken target. *)
Theorem markdown_line_count
    (notes : gmap string string)
    (links broken linking : gmap string (list string)) :
  length (markdown_lines notes links broken linking)
  = 22 + size notes + (if decide (broken = ∅) then 0 else 7 + size broken).
Proof.
  unfold markdown_lines, markdown_broken_section.
  rewrite !List.length_app, length_fmap, length_sorted_items.
  destruct (decide (broken = ∅)); simpl; [lia|].
  rewrite length_fmap, length_sorted_items. lia.
Qed.

(** X13. In the report of a scan, a note nobody links to is shown with
    the counts 0 and 0 and the mark [[!]]; a note somebody links to is
    shown with two positive counts and the mark [[OK]]. *)
Theorem note_row_of_scan (d : src_dir) (title filename : string) :
  let '(_, all_links, _, files_linking_to) := (scan_notes d).2 in
  ((∀ text, ¬ mentions (glob_md d) text filename) →
   note_row all_links files_linking_to (title, filename)
   = "| " +:+ title +:+ " | `" +:+ filename +:+ "` | 0 [!] | 0 |")
  ∧ ((∃ text, mentions (glob_md d) text filename) →
     ∃ n m, 0 < n ∧ 0 < m
       ∧ note_row all_links files_linking_to (title, filename)
         = "| " +:+ title +:+ " | `" +:+ filename +:+ "` | " +:+ str_nat n
             +:+ " [OK] | " +:+ str_nat m +:+ " |").
Proof.
  scan_result d. unfold note_row.
  rewrite !lookup_fmap, final_all_links, final_files_linking_to. split.
  - intros Hnone%mention_texts_nil_iff.
    apply linkers_to_nil_iff in Hnone as Hnone'. by rewrite Hnone, Hnone'.
  - intros [text Hm%mentions_texts].
    destruct (mention_texts filename (glob_md d)) as [|x l] eqn:E.
    { by apply not_elem_of_nil in Hm. }
    destruct (linkers_to filename (glob_md d)) as [|y k] eqn:E'.
    { apply linkers_to_nil_iff in E'. congruence. }
    cbn [dd_extend dd_union fmap option_fmap option_map default from_option id].
    assert (0 < length (dict_fromkeys (x :: l))) as Hn.
    { destruct (dict_fromkeys (x :: l)) eqn:Ed; [|simpl; lia].
      by apply (proj1 (dict_fromkeys_nil_iff _)) in Ed. }
    assert (0 < length (sorted (∅ ∪ list_to_set (y :: k)))) as Hm'.
    { destruct (sorted (∅ ∪ list_to_set (y :: k))) eqn:Es; [|simpl; lia].
      apply sorted_nil_iff in Es. exfalso. set_solver. }
    eexists _, _. split_and!; [exact Hn|exact Hm'|].
    by rewrite decide_True by done.
Qed.

(** ** The report of broken links *)

(** X14. Run on the directory the mapping was built from, the report of
    broken links prints nothing and returns the [broken_links] of the
    mapping unchanged, so the totals derived from it are the stored ones.
    Run on any directory, it drops the targets that are files there and
    keeps the other entries as they are. *)
Theorem broken_links_report_round_trip (mapping_path : string) (d d' : src_dir) :
  let m := main_json_mapping d in
  find_broken_links_geography mapping_path (Some m) d = ([], broken_links m)
  ∧ derived_totals (find_broken_links_geography mapping_path (Some m) d).2
    = (total_broken_links (statistics m),
       total_broken_link_mentions (statistics m))
  ∧ ∀ t, (find_broken_links_geography mapping_path (Some m) d').2 !! t
         = if decide (t ∈ existing_files_of (glob_md d')) then None
           else broken_links m !! t.
Proof.
  intros m.
  assert (∀ d0 : src_dir,
            match d0 with
            | Some files =>
                foldl (λ (existing_files : gset string) f,
                         existing_files ∪ {[name f]}) ∅ files
            | None => ∅
            end = existing_files_of (glob_md d0)) as Hfiles.
  { intros [files|]; [|done]. simpl.
    by rewrite existing_files_loop, (left_id_L ∅ (∪)). }
  assert (find_broken_links_geography mapping_path (Some m) d
          = ([], broken_links m)) as Hsame.
  { unfold find_broken_links_geography. rewrite Hfiles. f_equal.
    apply map_filter_id. intros t texts. subst m.
    unfold main_json_mapping. scan_result d. simpl.
    rewrite lookup_fmap, final_broken_links.
    destruct (decide _); [done|]. by intros _. }
  split_and!; [exact Hsame|by rewrite Hsame|].
  clearbody m. intros t. unfold find_broken_links_geography.
  rewrite Hfiles. cbn [snd fst]. rewrite map_lookup_filter.
  destruct (broken_links m !! t) as [texts|]; simpl.
  - destruct (decide _).
    + by rewrite option_guard_False by (simpl; auto).
    + by rewrite option_guard_True.
  - by destruct (decide _).
Qed.

(** ** Notes with little content *)

Section poor.
Implicit Types (st : bool * list string) (line content : string).

Lemma line_step_lines st line :
  Forall (λ l, l ≠ "" ∧ startswith "#" l = false) st.2 →
  Forall (λ l, l ≠ "" ∧ startswith "#" l = false) (Poor.line_step st line).2.
Proof.
  destruct st as [in_frontmatter acc]. unfold Poor.line_step. cbn [snd].
  intros Hacc. destruct (decide (strip line = "---")); [done|].
  destruct in_frontmatter; [done|].
  destruct (bool_decide (strip line ≠ "")) eqn:Hne; [|done].
  destruct (startswith "#" (strip line)) eqn:Hhead; [done|]. cbn [andb negb snd].
  apply Forall_app. split; [done|]. apply Forall_singleton.
  by apply bool_decide_eq_true in Hne.
Qed.

Lemma content_lines_Forall content :
  Forall (λ l, l ≠ "" ∧ startswith "#" l = false) (Poor.content_lines content).
Proof.
  unfold Poor.content_lines.
  assert (∀ (ls : list string) st,
            Forall (λ l, l ≠ "" ∧ startswith "#" l = false) st.2 →
            Forall (λ l, l ≠ "" ∧ startswith "#" l = false)
              (foldl Poor.line_step st ls).2) as Hfold.
  { induction ls as [|line ls IH]; intros st Hst; [done|].
    simpl. by apply IH, line_step_lines. }
  by apply Hfold.
Qed.

Lemma filter_Forall_id {A} (P : A → Prop) `{!∀ x, Decision (P x)} (l : list A) :
  Forall P l → filter P l = l.
Proof.
  induction 1 as [|x l Hx _ IH]; [done|].
  by rewrite filter_cons, decide_True, IH.
Qed.

(** Inside a front matter nothing is collected until a delimiter line. *)
Lemma line_step_inside acc (ls : list string) :
  (∀ l, l ∈ ls → strip l ≠ "---") →
  foldl Poor.line_step (true, acc) ls = (true, acc).
Proof.
  induction ls as [|line ls IH]; intros Hno; [done|]. simpl.
  rewrite decide_False by (apply Hno; by left).
  apply IH. intros l Hl. apply Hno. by right.
Qed.
End poor.

Lemma non_header_lines_eq (content : string) :
  Poor.non_header_lines content = Poor.content_lines content.
Proof.
  unfold Poor.non_header_lines. apply filter_Forall_id.
  eapply Forall_impl; [apply content_lines_Forall|]. by intros l [_ ?].
Qed.

(** X15. The lines collected as content are never empty and never start
    with [#], so the later filter that drops the lines starting with [#]
    drops nothing. *)
Theorem non_header_lines_are_content_lines (content : string) :
  Poor.non_header_lines content = Poor.content_lines content
  ∧ Forall (λ l, l ≠ "" ∧ startswith "#" l = false) (Poor.content_lines content).
Proof. split; [apply non_header_lines_eq|apply content_lines_Forall]. Qed.

(** X17. A note whose first line is a delimiter and which has no other
    delimiter line has no content lines, whatever follows: with the topic
    marker it is listed under the count 0. *)
Theorem open_front_matter_has_no_content
    (f : note_file) (content first : string) (rest : list string)
    (stdout : list string) (poor_content_files : gmap nat (list string)) :
  read f = ReadOk content →
  split (chr LF) content = first :: rest →
  strip first = "---" →
  (∀ l, l ∈ rest → strip l ≠ "---") →
  contains "topic: География" content = true →
  Poor.content_lines content = []
  ∧ Poor.scan_file (stdout, poor_content_files) f
    = (stdout, Poor.dd_append 0 (name f) poor_content_files).
Proof.
  intros Hread Hsplit Hfirst Hrest Htopic.
  assert (Poor.content_lines content = []) as Hnone.
  { unfold Poor.content_lines. rewrite Hsplit. simpl.
    rewrite decide_True by done. simpl. by rewrite line_step_inside. }
  split; [done|]. unfold Poor.scan_file. rewrite Hread, Htopic.
  by rewrite non_header_lines_eq, Hnone.
Qed.

Lemma open_front_matter_has_no_content_witness :
  let f := note "lost.md" (ReadOk unclosed_geography) in
  read f = ReadOk unclosed_geography
  ∧ split (chr LF) unclosed_geography
    = "---" :: ["topic: География"; "title: Lost"; "text"; "more text"]
  ∧ strip "---" = "---"
  ∧ contains "topic: География" unclosed_geography = true
  ∧ Poor.content_lines unclosed_geography = []
  ∧ Poor.scan_file ([], ∅) f = ([], Poor.dd_append 0 (name f) ∅).
Proof.
  intros f.
  assert (∀ l, l ∈ ["topic: География"; "title: Lost"; "text"; "more text"] →
               strip l ≠ "---") as Hrest.
  { intros l Hl. rewrite !elem_of_cons, elem_of_nil in Hl.
    destruct Hl as [->|[->|[->|[->|[]]]]]; by vm_compute. }
  do 4 (split; [by vm_compute|]).
  exact (open_front_matter_has_no_content f unclosed_geography "---" _ [] ∅
           eq_refl eq_refl eq_refl Hrest eq_refl).
Defined.

Section poor_listing.
Implicit Types (f : note_file) (files : list note_file) (n : nat).

Lemma poor_scan_file_lookup (st : Poor.state) f n :
  (Poor.scan_file st f).2 !! n
  = match poor_count f with
    | Some m => if decide (m = n) then Some (default [] (st.2 !! n) ++ [name f])
                else st.2 !! n
    | None => st.2 !! n
    end.
Proof.
  destruct st as [out poor]. unfold Poor.scan_file, poor_count.
  destruct (read f) as [content|e]; [|done].
  destruct (contains _ content); [|done].
  destruct (decide _); [|done]. simpl. unfold Poor.dd_append.
  rewrite lookup_insert. by destruct (decide _) as [->|].
Qed.

Lemma poor_names_cons n f files :
  poor_names n (f :: files)
  = (if decide (poor_count f = Some n) then [name f] else [])
    ++ poor_names n files.
Proof. unfold poor_names. rewrite filter_cons. by destruct (decide _). Qed.

Lemma poor_scan_files_lookup (st : Poor.state) files n :
  (foldl Poor.scan_file st files).2 !! n
  = dd_extend (st.2 !! n) (poor_names n files).
Proof.
  revert st. induction files as [|f files IH]; intros st; [done|].
  simpl. rewrite IH, poor_scan_file_lookup, poor_names_cons.
  destruct (poor_count f) as [m|].
  - destruct (decide (m = n)) as [->|Hne].
    + rewrite (decide_True (P:=Some n = Some n)) by done. cbn [app].
      destruct (poor_names n files); simpl; [done|].
      by rewrite <- app_assoc.
    + by rewrite (decide_False (P:=Some m = Some n)) by congruence.
  - by rewrite (decide_False (P:=None = Some n)) by done.
Qed.
End poor_listing.

(** X16. The dictionary of notes with little content lists, under a count
    below five, exactly the readable notes with the topic marker that have
    that many content lines; no other key occurs. *)
Theorem poor_content_listing
    (src_path : string) (d : src_dir) (n : nat) (names : list string) :
  (Poor.find_poor_content_files src_path d).2 !! n = Some names →
  n < 5
  ∧ names ≠ []
  ∧ ∀ x, x ∈ names
         ↔ ∃ f content,
             f ∈ glob_md d ∧ name f = x ∧ read f = ReadOk content
             ∧ contains "topic: География" content = true
             ∧ length (Poor.content_lines content) = n.
Proof.
  destruct d as [files|]; [|done]. simpl.
  rewrite poor_scan_files_lookup. simpl.
  destruct (poor_names n files) as [|y l] eqn:E; [done|].
  simpl. intros [= <-]. rewrite <- E.
  assert (∀ x, x ∈ poor_names n files
               ↔ ∃ f, f ∈ files ∧ name f = x ∧ poor_count f = Some n) as Hin.
  { intros x. unfold poor_names. rewrite list_elem_of_fmap.
    setoid_rewrite list_elem_of_filter. naive_solver. }
  assert (∀ f, poor_count f = Some n
               ↔ n < 5 ∧ ∃ content, read f = ReadOk content
                   ∧ contains "topic: География" content = true
                   ∧ length (Poor.content_lines content) = n) as Hcount.
  { intros f. unfold poor_count. destruct (read f) as [content|e].
    - rewrite non_header_lines_eq.
      destruct (contains _ content) eqn:Htopic.
      + unfold Poor.MIN_CONTENT_LINES. destruct (decide _) as [Hlt|Hge].
        * split.
          -- intros [= <-]. split; [done|]. by exists content.
          -- by intros (_ & c & [= <-] & _ & <-).
        * split; [done|]. intros (? & c & [= <-] & _ & <-). lia.
      + split; [done|]. intros (_ & c & [= <-] & ? & _). congruence.
    - split; [done|]. by intros (_ & c & ? & _). }
  split_and!.
  - assert (y ∈ poor_names n files) as (f & _ & _ & Hf)%Hin
      by (rewrite E; by left).
    by apply Hcount in Hf as [? _].
  - by rewrite E.
  - intros x. rewrite Hin. split.
    + intros (f & Hf & Hname & (_ & c & ? & ? & ?)%Hcount). by exists f, c.
    + intros (f & c & Hf & Hname & Hread & Htopic & Hlen). exists f.
      split_and!; [done..|]. apply Hcount. split; [|by eauto].
      assert (y ∈ poor_names n files) as (g & _ & _ & Hg)%Hin
        by (rewrite E; by left).
      by apply Hcount in Hg as [? _].
Qed.

Lemma poor_content_listing_witness :
  (Poor.find_poor_content_files "src" dir_geography).2 !! 3 = Some ["short.md"]
  ∧ 3 < 5
  ∧ ["short.md"] ≠ []
  ∧ ∀ x, x ∈ ["short.md"]
         ↔ ∃ f content,
             f ∈ glob_md dir_geography ∧ name f = x ∧ read f = ReadOk content
             ∧ contains "topic: География" content = true
             ∧ length (Poor.content_lines content) = 3.
Proof.
  assert ((Poor.find_poor_content_files "src" dir_geography).2 !! 3
          = Some ["short.md"]) as Hlook by by vm_compute.
  split; [exact Hlook|].
  exact (poor_content_listing "src" dir_geography 3 ["short.md"] Hlook).
Defined.

(** X18. The scan prints one line for each entry that cannot be read, in
    the order of the listing, and nothing else: it prints nothing exactly
    when every entry can be read. *)
Theorem scan_prints_read_errors (d : src_dir) :
  (scan_notes d).1 = read_errors (glob_md d)
  ∧ ((scan_notes d).1 = []
     ↔ ∀ f, f ∈ glob_md d → ∃ content, read f = ReadOk content).
Proof.
  rewrite scan_notes_final. cbn [fst]. unfold final_state.
  rewrite scan_files_stdout. simpl. split; [done|].
  induction (glob_md d) as [|f files IH].
  { split; [|done]. by intros _ f ?%not_elem_of_nil. }
  rewrite read_errors_cons. unfold read_errors at 1. rewrite bind_cons. simpl.
  destruct (read f) as [content|e] eqn:Hread; simpl.
  - rewrite IH. split.
    + intros Hall g [->|Hg]%elem_of_cons; [by eauto|by apply Hall].
    + intros Hall g Hg. apply Hall. by right.
  - split; [done|]. intros Hall.
    destruct (Hall f) as [content Hcontent]; [by left|]. congruence.
Qed.

(** ** Reversal, stripping and cutting of composed text *)

Section composed.
Implicit Types (s a b sep acc : string) (c : ascii).

Lemma append_nil_r s : s +:+ "" = s.
Proof. induction s as [|c s IH]; [done|]. by rewrite append_cons, IH. Qed.

Lemma rev_app_append s acc : String.rev_app s acc = String.rev s +:+ acc.
Proof.
  unfold String.rev. revert acc. induction s as [|c s IH]; intros acc; [done|].
  simpl. rewrite (IH (String c acc)), (IH (String c "")).
  by rewrite app_assoc_string.
Qed.

Lemma rev_cons c s : String.rev (String c s) = String.rev s +:+ chr c.
Proof. unfold String.rev at 1. simpl. by rewrite rev_app_append. Qed.

Lemma rev_append a b : String.rev (a +:+ b) = String.rev b +:+ String.rev a.
Proof.
  induction a as [|c a IH]; [by rewrite append_nil, append_nil_r|].
  by rewrite append_cons, !rev_cons, IH, app_assoc_string.
Qed.

Lemma rev_involutive s : String.rev (String.rev s) = s.
Proof.
  induction s as [|c s IH]; [done|]. by rewrite rev_cons, rev_append, IH.
Qed.

(** Stripping on the left leaves a suffix, stripping on the right a
    prefix. *)
Lemma lstrip_ws_suffix (backwards : bool) s :
  ∃ pre, s = pre +:+ lstrip_ws backwards s.
Proof.
  assert (∀ n s, String.length s ≤ n →
                 ∃ pre, s = pre +:+ lstrip_ws backwards s) as Hlen.
  { clear s. induction n as [|n IH]; intros s Hn.
    - destruct s; [by exists ""|simpl in Hn; lia].
    - destruct s as [|c1 s1]; [by exists ""|]. simpl in Hn.
      cbn [lstrip_ws]. destruct (ws1 c1).
      { destruct (IH s1) as [pre Hpre]; [lia|].
        exists (String c1 pre). by rewrite append_cons, <- Hpre. }
      destruct s1 as [|c2 s2]; [by exists ""|]. simpl in Hn.
      destruct (if backwards then ws2 c2 c1 else ws2 c1 c2).
      { destruct (IH s2) as [pre Hpre]; [lia|].
        exists (String c1 (String c2 pre)). by rewrite !append_cons, <- Hpre. }
      destruct s2 as [|c3 s3]; [by exists ""|]. simpl in Hn.
      destruct (if backwards then ws3 c3 c2 c1 else ws3 c1 c2 c3);
        [|by exists ""].
      destruct (IH s3) as [pre Hpre]; [lia|].
      exists (String c1 (String c2 (String c3 pre))).
      by rewrite !append_cons, <- Hpre. }
  by apply (Hlen (String.length s)).
Qed.

Lemma rstrip_prefix s : ∃ suffix, s = rstrip s +:+ suffix.
Proof.
  unfold rstrip. destruct (lstrip_ws_suffix true (String.rev s)) as [pre Hpre].
  exists (String.rev pre).
  by rewrite <- rev_append, <- Hpre, rev_involutive.
Qed.

(** A separator does not reach across a character it does not hold. *)
Lemma startswith_boundary sep a c b :
  contains (chr c) sep = false →
  startswith sep (a +:+ String c b) = startswith sep a.
Proof.
  revert a. induction sep as [|c0 sep IH]; intros a Hc; [done|].
  apply contains_chr_cons in Hc as [Hne Hsep].
  destruct a as [|c1 a].
  - rewrite append_nil. simpl. by rewrite decide_False by done.
  - rewrite append_cons. simpl. destruct (decide (c0 = c1)); [|done].
    by apply IH.
Qed.

Lemma cut_boundary sep a c b :
  sep ≠ "" →
  contains (chr c) sep = false →
  contains sep a = false →
  cut sep (a +:+ String c b)
  = match cut sep b with
    | Some (x, y) => Some (a +:+ String c x, y)
    | None => None
    end.
Proof.
  intros Hsep Hc. induction a as [|c1 a IH]; intros Ha.
  - rewrite !append_nil, cut_cons.
    pose proof (startswith_boundary sep "" c b Hc) as Hb.
    rewrite append_nil in Hb. rewrite Hb.
    destruct sep; [done|]. simpl. by destruct (cut _ b) as [[??]|].
  - rewrite append_cons, cut_cons.
    change (String c1 (a +:+ String c b)) with (String c1 a +:+ String c b).
    rewrite startswith_boundary by done.
    unfold contains in Ha. rewrite cut_cons in Ha.
    destruct (startswith sep (String c1 a)); [done|].
    rewrite IH.
    + destruct (cut sep b) as [[x y]|]; [|done]. by rewrite !append_cons.
    + unfold contains. by destruct (cut sep a) as [[??]|].
Qed.

(** [split] goes on after the first cut. *)
Lemma split_cut sep s a b :
  sep ≠ "" → cut sep s = Some (a, b) → split sep s = a :: split sep b.
Proof.
  intros Hsep Hcut. pose proof (cut_shorter _ _ _ _ Hsep Hcut) as Hlen.
  unfold split at 1. destruct (String.length s) as [|n] eqn:Hn; [lia|].
  rewrite split_max_S, Hcut. f_equal. apply split_max_enough; [done|lia].
Qed.
End composed.

Section stripping.
Implicit Types (s t x y : string) (c : ascii).

Lemma lstrip_ws_length (backwards : bool) s :
  String.length (lstrip_ws backwards s) ≤ String.length s.
Proof.
  destruct (lstrip_ws_suffix backwards s) as [pre Hpre].
  rewrite Hpre at 2. rewrite length_app. lia.
Qed.

Lemma lstrip_ws_3 (backwards : bool) c1 c2 c3 s :
  lstrip_ws backwards (String c1 (String c2 (String c3 s)))
  = if ws1 c1 then lstrip_ws backwards (String c2 (String c3 s))
    else if (if backwards then ws2 c2 c1 else ws2 c1 c2)
         then lstrip_ws backwards (String c3 s)
         else if (if backwards then ws3 c3 c2 c1 else ws3 c1 c2 c3)
              then lstrip_ws backwards s
              else String c1 (String c2 (String c3 s)).
Proof. reflexivity. Qed.

(** Where stripping stops after looking at three characters, it stops
    whatever follows them. *)
Lemma lstrip_ws_stop (backwards : bool) x y :
  3 ≤ String.length x →
  lstrip_ws backwards x = x →
  lstrip_ws backwards (x +:+ y) = x +:+ y.
Proof.
  destruct x as [|c1 [|c2 [|c3 x]]]; simpl String.length; try lia. intros _.
  rewrite !append_cons, !lstrip_ws_3.
  destruct (ws1 c1).
  { intros H. pose proof (lstrip_ws_length backwards (String c2 (String c3 x))) as Hl.
    rewrite H in Hl. simpl in Hl. lia. }
  destruct (if backwards then ws2 c2 c1 else ws2 c1 c2).
  { intros H. pose proof (lstrip_ws_length backwards (String c3 x)) as Hl.
    rewrite H in Hl. simpl in Hl. lia. }
  destruct (if backwards then ws3 c3 c2 c1 else ws3 c1 c2 c3); [|done].
  intros H. pose proof (lstrip_ws_length backwards x) as Hl.
  rewrite H in Hl. simpl in Hl. lia.
Qed.

Lemma lstrip_ws_LF (backwards : bool) s :
  lstrip_ws backwards (String LF s) = lstrip_ws backwards s.
Proof. reflexivity. Qed.

Lemma length_rev s : String.length (String.rev s) = String.length s.
Proof.
  induction s as [|c s IH]; [done|].
  rewrite rev_cons, length_app, IH. simpl. lia.
Qed.

(** Stripping on the right removes a final line feed and stops at a text
    that it leaves alone. *)
Lemma rstrip_line s t :
  3 ≤ String.length t →
  rstrip t = t →
  rstrip (s +:+ t +:+ chr LF) = s +:+ t.
Proof.
  intros Hlen Ht. unfold rstrip in *.
  assert (lstrip_ws true (String.rev t) = String.rev t) as Hrev.
  { rewrite <- (rev_involutive (lstrip_ws true (String.rev t))).
    by rewrite Ht. }
  rewrite !rev_append. change (String.rev (chr LF)) with (chr LF).
  rewrite app_assoc_string. unfold chr.
  rewrite append_cons, append_nil, lstrip_ws_LF.
  rewrite lstrip_ws_stop; [|by rewrite length_rev|done].
  by rewrite rev_append, !rev_involutive.
Qed.
End stripping.

(** ** Notes made from the default front matter *)

Section default_note_facts.
Variable lower : string → string.
Implicit Types (name template T : string).

Lemma default_note_shape name template :
  ∃ T, (T = "Evergreen" ∨ T = "Literature" ∨ T = "Project")
       ∧ get_default_frontmatter lower name template
         = "---" +:+ chr LF +:+ "title: " +:+ name +:+ chr LF
           +:+ "type: " +:+ T +:+ chr LF
           +:+ "status: IN PROGRESS" +:+ chr LF
           +:+ "category: География" +:+ chr LF
           +:+ "topic: География" +:+ chr LF
           +:+ "---" +:+ chr LF +:+ chr LF +:+ "# " +:+ name +:+ chr LF
           +:+ chr LF.
Proof.
  unfold get_default_frontmatter.
  destruct (contains "literature" (lower template)).
  { exists "Literature". by auto. }
  destruct (contains "project" (lower template)).
  { exists "Project". by auto. }
  exists "Evergreen". by auto.
Qed.

Lemma contains_after_space sep p name :
  sep ≠ "" →
  contains " " sep = false →
  contains sep p = false →
  contains sep name = false →
  contains sep (p +:+ String " " name) = false.
Proof.
  intros Hsep Hsp Hp Hname%contains_false_cut. unfold contains.
  by rewrite cut_boundary, Hname.
Qed.

(** The front matter of the default text, cut out and split into lines. *)
Lemma default_note_front_matter name T :
  T = "Evergreen" ∨ T = "Literature" ∨ T = "Project" →
  contains (chr LF) name = false →
  contains "---" name = false →
  let fields := "type: " +:+ T +:+ chr LF +:+ "status: IN PROGRESS" +:+ chr LF
                +:+ "category: География" +:+ chr LF +:+ "topic: География" in
  let yaml := chr LF +:+ "title: " +:+ name +:+ chr LF +:+ fields +:+ chr LF in
  let rest := chr LF +:+ chr LF +:+ "# " +:+ name +:+ chr LF +:+ chr LF in
  cut "---" (yaml +:+ "---" +:+ rest) = Some (yaml, rest)
  ∧ split (chr LF) (strip yaml)
    = ("title" +:+ ":" +:+ String " " name) :: split (chr LF) fields.
Proof.
  intros HT HLF Hsep fields yaml rest.
  assert (contains "---" fields = false ∧ rstrip (String LF fields) = String LF fields
          ∧ 3 ≤ String.length (String LF fields)) as (Hf1 & Hf2 & Hf3).
  { subst fields.
    destruct HT as [->|[->| ->]];
      (split_and!; [by vm_compute|by vm_compute|simpl; lia]). }
  clearbody fields. split.
  - assert (yaml +:+ "---" +:+ rest
            = ("" +:+ String LF ("title:" +:+ String " " name))
              +:+ String LF (fields +:+ String LF ("---" +:+ rest))) as ->.
    { subst yaml. by rewrite !app_assoc_string. }
    rewrite cut_boundary; [|done|done|].
    + rewrite cut_boundary; [|done|done|done]. rewrite cut_prefix.
      subst yaml. by rewrite !app_assoc_string.
    + rewrite append_nil.
      apply (contains_after_space "---" (String LF "title:")); done.
  - assert (strip yaml = ("title:" +:+ String " " name) +:+ String LF fields)
      as ->.
    { unfold strip.
      assert (lstrip yaml
              = ("title:" +:+ String " " name) +:+ String LF fields +:+ chr LF)
        as ->.
      { subst yaml. rewrite !app_assoc_string. reflexivity. }
      by apply rstrip_line. }
    rewrite (split_cut (chr LF) _ ("title:" +:+ String " " name) fields);
      [done|done|].
    apply (cut_chr_first LF).
    apply (contains_after_space (chr LF) "title:"); done.
Qed.
End default_note_facts.

Section default_note_scans.
Variable lower : string → string.
Implicit Types (name template : string).

(** Lines joined by line feeds are found again by splitting. *)
Lemma split_join (ls : list string) :
  ls ≠ [] →
  (∀ l, l ∈ ls → contains (chr LF) l = false) →
  split (chr LF) (join (chr LF) ls) = ls.
Proof.
  induction ls as [|l ls IH]; [done|]. intros _ Hls.
  destruct ls as [|l' ls].
  - simpl. unfold split.
    assert (cut (chr LF) l = None) as Hcut
      by (apply contains_false_cut, Hls; by left).
    destruct (String.length l); [done|]. by rewrite split_max_S, Hcut.
  - change (join (chr LF) (l :: l' :: ls))
      with (l +:+ chr LF +:+ join (chr LF) (l' :: ls)).
    rewrite (split_cut (chr LF) _ l (join (chr LF) (l' :: ls))); [|done|].
    + f_equal. apply IH; [done|]. intros x Hx. apply Hls. by right.
    + apply (cut_chr_first LF), Hls. by left.
Qed.

Lemma strip_not_delimiter c s :
  c ≠ "-"%char → lstrip (String c s) = String c s → strip (String c s) ≠ "---".
Proof.
  intros Hc Hl Hstrip. unfold strip in Hstrip. rewrite Hl in Hstrip.
  destruct (rstrip_prefix (String c s)) as [suffix Hpre].
  rewrite Hstrip in Hpre. by injection Hpre.
Qed.

Lemma lstrip_title name : lstrip ("title: " +:+ name) = "title: " +:+ name.
Proof. reflexivity. Qed.

Lemma lstrip_heading name : lstrip ("# " +:+ name) = "# " +:+ name.
Proof. by destruct name as [|c name]. Qed.

(** A heading line is no content line. *)
Lemma line_step_heading acc name :
  Poor.line_step (false, acc) ("# " +:+ name) = (false, acc).
Proof.
  unfold Poor.line_step.
  rewrite decide_False
    by (apply (strip_not_delimiter "#"%char); [done|apply lstrip_heading]).
  assert (strip ("# " +:+ name) = "" ∨ startswith "#" (strip ("# " +:+ name)) = true)
    as [Hs|Hs].
  { unfold strip. rewrite lstrip_heading.
    destruct (rstrip_prefix ("# " +:+ name)) as [suffix Hpre].
    destruct (rstrip ("# " +:+ name)) as [|c r]; [by left|].
    right. injection Hpre as <- _. done. }
  - rewrite Hs. done.
  - rewrite Hs. by rewrite andb_false_r.
Qed.

Lemma default_note_lines name template :
  contains (chr LF) name = false →
  ∃ fields,
    Forall (λ l, strip l ≠ "---") fields
    ∧ split (chr LF) (get_default_frontmatter lower name template)
      = ["---"; "title: " +:+ name] ++ fields
        ++ ["---"; ""; "# " +:+ name; ""; ""].
Proof.
  intros HLF.
  destruct (default_note_shape lower name template) as (T & HT & ->).
  exists ["type: " +:+ T; "status: IN PROGRESS"; "category: География";
          "topic: География"].
  split.
  { destruct HT as [->|[->| ->]]; repeat constructor; by vm_compute. }
  match goal with
  | |- _ = ?ls =>
      assert (∀ content, content = join (chr LF) ls → split (chr LF) content = ls)
        as Hgoal
  end; [|apply Hgoal; cbn [app join]; rewrite !app_assoc_string; reflexivity].
  intros content ->. apply split_join; [done|].
  - intros l Hl. simpl in Hl.
    rewrite !elem_of_cons, elem_of_nil in Hl.
    assert (contains (chr LF) T = false) as HTLF
      by (destruct HT as [->|[->| ->]]; by vm_compute).
    destruct Hl as [->|[->|[->|[->|[->|[->|[->|[->|[->|[->|[->|[]]]]]]]]]]]];
      try done.
    + by apply (contains_after_space (chr LF) "title:").
    + by apply (contains_after_space (chr LF) "type:").
    + by apply (contains_after_space (chr LF) "#").
Qed.

(** X20. A note made from the default front matter, for a name without
    line feed, holds the topic marker and no content line: the search for
    notes with little content lists it under the count 0. *)
Theorem default_note_is_poor
    (note_name template : string) (f : note_file)
    (stdout : list string) (poor_content_files : gmap nat (list string)) :
  contains (chr LF) note_name = false →
  read f = ReadOk (get_default_frontmatter lower note_name template) →
  contains "topic: География" (get_default_frontmatter lower note_name template)
    = true
  ∧ Poor.content_lines (get_default_frontmatter lower note_name template) = []
  ∧ Poor.scan_file (stdout, poor_content_files) f
    = (stdout, Poor.dd_append 0 (name f) poor_content_files).
Proof.
  intros HLF Hread.
  assert (contains "topic: География"
            (get_default_frontmatter lower note_name template) = true) as Htopic.
  { destruct (default_note_shape lower note_name template) as (T & HT & ->).
    apply contains_true_iff.
    exists ("---" +:+ chr LF +:+ "title: " +:+ note_name +:+ chr LF
            +:+ "type: " +:+ T +:+ chr LF +:+ "status: IN PROGRESS" +:+ chr LF
            +:+ "category: География" +:+ chr LF),
           (chr LF +:+ "---" +:+ chr LF +:+ chr LF +:+ "# " +:+ note_name
            +:+ chr LF +:+ chr LF).
    rewrite !app_assoc_string. reflexivity. }
  assert (Poor.content_lines (get_default_frontmatter lower note_name template) = [])
    as Hnone.
  { destruct (default_note_lines note_name template HLF) as (fields & Hfields & Hsplit).
    unfold Poor.content_lines. rewrite Hsplit.
    rewrite !foldl_app. cbn [foldl].
    assert (Poor.line_step (false, []) "---" = (true, [])) as -> by reflexivity.
    assert (Poor.line_step (true, []) ("title: " +:+ note_name) = (true, [])) as ->.
    { unfold Poor.line_step. rewrite decide_False; [done|].
      apply (strip_not_delimiter "t"%char); [done|apply lstrip_title]. }
    rewrite line_step_inside by (intros l Hl; by apply (proj1 (Forall_forall _ _) Hfields)).
    assert (Poor.line_step (true, []) "---" = (false, [])) as -> by reflexivity.
    assert (Poor.line_step (false, []) "" = (false, [])) as -> by reflexivity.
    by rewrite line_step_heading. }
  split_and!; [done..|].
  unfold Poor.scan_file. by rewrite Hread, Htopic, non_header_lines_eq, Hnone.
Qed.

(** X19. The scanner reads from a note made from the default front
    matter, for a name without line feed and without delimiter, the name
    as title, trimmed and with its surrounding quotes removed. *)
Theorem default_note_title (name template : string) :
  contains (chr LF) name = false →
  contains "---" name = false →
  Scan.title_of (get_default_frontmatter lower name template)
  = strip_chars (chr SQUOTE) (strip_chars (chr DQUOTE) (strip name)).
Proof.
  intros HLF Hsep.
  destruct (default_note_shape lower name template) as (T & HT & ->).
  destruct (default_note_front_matter name T HT HLF Hsep) as [Hcut Hlines].
  cbv zeta in Hcut, Hlines.
  match type of Hcut with
  | cut _ (?yaml +:+ "---" +:+ ?rest) = _ =>
      assert (∀ content, content = "---" +:+ yaml +:+ "---" +:+ rest →
                Scan.title_of content
                = strip_chars (chr SQUOTE) (strip_chars (chr DQUOTE) (strip name)))
        as Hgoal
  end.
  { intros content ->. unfold Scan.title_of.
    rewrite (extract_yaml_frontmatter_closed _ _ Hcut), Hlines. cbn [foldl].
    rewrite frontmatter_lines_other.
    - rewrite (frontmatter_line_sets ∅ "title" (String " " name)) by done.
      change (strip "title") with "title". by rewrite lookup_insert_eq.
    - intros line key value Hin Hline.
      assert (split (chr LF)
                ("type: " +:+ T +:+ chr LF +:+ "status: IN PROGRESS" +:+ chr LF
                 +:+ "category: География" +:+ chr LF +:+ "topic: География")
              = ["type: " +:+ T; "status: IN PROGRESS"; "category: География";
                 "topic: География"]) as Hfields
        by (destruct HT as [->|[->| ->]]; by vm_compute).
      rewrite Hfields in Hin. rewrite !elem_of_cons, elem_of_nil in Hin.
      destruct Hin as [->|[->|[->|[->|[]]]]];
        [destruct HT as [->|[->| ->]]|..];
        vm_compute in Hline; injection Hline as <- _; by vm_compute. }
  apply Hgoal. rewrite !app_assoc_string. reflexivity.
Qed.
End default_note_scans.

Lemma default_note_is_poor_witness :
  Poor.content_lines (get_default_frontmatter (λ s, s) "Volga" "literature") = []
  ∧ (Poor.find_poor_content_files "src"
       (Some [note "Volga.md"
                (ReadOk (get_default_frontmatter (λ s, s) "Volga" "literature"))])).2
    = {[ 0 := ["Volga.md"] ]}.
Proof.
  destruct (default_note_is_poor (λ s, s) "Volga" "literature"
              (note "Volga.md"
                 (ReadOk (get_default_frontmatter (λ s, s) "Volga" "literature")))
              [] ∅) as (_ & Hnone & Hscan); [by vm_compute|reflexivity|].
  split; [exact Hnone|].
  unfold Poor.find_poor_content_files. cbn [foldl]. rewrite Hscan. reflexivity.
Defined.

Lemma default_note_title_witness :
  Scan.title_of (get_default_frontmatter (λ s, s) "Volga" "literature") = "Volga".
Proof.
  rewrite (default_note_title (λ s, s) "Volga" "literature");
    [reflexivity|by vm_compute|by vm_compute].
Defined.
